(** * DigitalPin: a GPIO line handle over libgpiod, and its demo driver

    A shallow embedding of [DigitalPin.cpp] / [DigitalPin.h] (the class
    [DigitalPin]) and of [DigitalPinDriver.cpp] (the function [main]).

    - C++ [int] values are [Z]; the one conversion to [unsigned int]
      (the line offset handed to libgpiod) is written out as a reduction
      modulo [2^32].
    - Pointers ([gpiod_chip*], [gpiod_line*]) are [Z] addresses, [NULL] is [0].
    - libgpiod is an external C library: it is an interface ([Gpiod]) over an
      abstract provider state, and every theorem about the class holds for
      every provider.  [SimGpiod] is one concrete provider, used to run the
      model.
    - Exceptions, the scoped mutex guard and the calls into libgpiod are
      threaded through a small state-and-exception monad; every libgpiod
      call, mutex operation, throw and console write is appended to an
      execution trace. *)

From Stdlib Require Import ZArith List String Ascii Bool Lia.
From Stdlib Require Import DecimalString DecimalZ DecimalPos.
Import ListNotations.

Set Implicit Arguments.
Local Open Scope Z_scope.

(** ** C++ values *)

(** [int] to [unsigned int] conversion (32-bit, wraps around). *)
Definition to_unsigned (n : Z) : Z := n mod 2 ^ 32.

(** [std::to_string(int)]: decimal digits, a leading [-] when negative. *)
Definition to_string (n : Z) : string := NilZero.string_of_int (Z.to_int n).

(** [std::string::empty]. *)
Definition empty (s : string) : bool :=
  match s with
  | EmptyString => true
  | String _ _ => false
  end.

(** [std::runtime_error], the only exception type the class throws. *)
Inductive exception : Type :=
| runtime_error (what_arg : string).

Definition what (e : exception) : string :=
  match e with runtime_error s => s end.

(** ** The class's types *)

Inductive Direction : Type := Input | Output.

Definition Direction_eqb (a b : Direction) : bool :=
  match a, b with
  | Input, Input | Output, Output => true
  | _, _ => false
  end.

Definition ptr := Z.
Definition NULL : ptr := 0.

(** [std::mutex], as seen by the threads that use it. *)
Inductive mutex : Type := Unlocked | Locked.

Record DigitalPin : Type := mkDigitalPin {
  pinNumber_ : Z;
  direction_ : Direction;
  name_ : string;
  chip_ : ptr;
  line_ : ptr;
  mutex_ : mutex
}.

Definition set_mutex (m : mutex) (p : DigitalPin) : DigitalPin :=
  {| pinNumber_ := pinNumber_ p; direction_ := direction_ p; name_ := name_ p;
     chip_ := chip_ p; line_ := line_ p; mutex_ := m |}.

(** ** libgpiod, as the class uses it *)

Inductive request_type_t : Type :=
| GPIOD_LINE_REQUEST_DIRECTION_INPUT
| GPIOD_LINE_REQUEST_DIRECTION_OUTPUT.

Record gpiod_line_request_config : Type := mkConfig {
  request_type : request_type_t;
  consumer : string;
  flags : Z
}.

(** The seven libgpiod entry points the class calls, over an abstract
    provider state [HW] (open controllers, reservations, line levels, and
    [errno]).  Reading a line's value is an observation of that state.
    [strerror_errno] is [std::strerror(errno)]. *)
Class Gpiod : Type := {
  HW : Type;
  gpiod_chip_open_by_number : Z -> HW -> ptr * HW;
  gpiod_chip_get_line : ptr -> Z -> HW -> ptr * HW;
  gpiod_line_request : ptr -> gpiod_line_request_config -> Z -> HW -> Z * HW;
  gpiod_line_get_value : ptr -> HW -> Z;
  gpiod_line_set_value : ptr -> Z -> HW -> Z * HW;
  gpiod_line_release : ptr -> HW -> HW;
  gpiod_chip_close : ptr -> HW -> HW;
  strerror_errno : HW -> string
}.

(** ** Execution traces *)

Inductive Event : Type :=
| EvChipOpen (num : Z) (res : ptr)
| EvGetLine (chip : ptr) (offset : Z) (res : ptr)
| EvLineRequest (line : ptr) (cfg : gpiod_line_request_config) (default_val rc : Z)
| EvGetValue (line : ptr) (rc : Z)
| EvSetValue (line : ptr) (v rc : Z)
| EvLineRelease (line : ptr)
| EvChipClose (chip : ptr)
| EvMutexLock
| EvMutexUnlock
| EvThrow (e : exception)
| EvCout (s : string)
| EvCerr (s : string).

(** An event that reaches the hardware provider. *)
Definition is_hw_access (ev : Event) : bool :=
  match ev with
  | EvChipOpen _ _ | EvGetLine _ _ _ | EvLineRequest _ _ _ _
  | EvGetValue _ _ | EvSetValue _ _ _ | EvLineRelease _ | EvChipClose _ => true
  | _ => false
  end.

(** An event that can change what the provider holds (everything but the
    value query). *)
Definition is_hw_update (ev : Event) : bool :=
  match ev with
  | EvGetValue _ _ => false
  | _ => is_hw_access ev
  end.

(** Resource accounting over a trace: the controllers opened and not yet
    closed, and the lines reserved and not yet released. *)
Fixpoint remove_ptr (x : ptr) (l : list ptr) : list ptr :=
  match l with
  | [] => []
  | y :: l' => if x =? y then l' else y :: remove_ptr x l'
  end.

Fixpoint held_chips_from (acc : list ptr) (tr : list Event) : list ptr :=
  match tr with
  | [] => acc
  | EvChipOpen _ c :: tr' =>
      held_chips_from (if c =? NULL then acc else c :: acc) tr'
  | EvChipClose c :: tr' => held_chips_from (remove_ptr c acc) tr'
  | _ :: tr' => held_chips_from acc tr'
  end.

Fixpoint held_lines_from (acc : list ptr) (tr : list Event) : list ptr :=
  match tr with
  | [] => acc
  | EvLineRequest l _ _ rc :: tr' =>
      held_lines_from (if rc =? 0 then l :: acc else acc) tr'
  | EvLineRelease l :: tr' => held_lines_from (remove_ptr l acc) tr'
  | _ :: tr' => held_lines_from acc tr'
  end.

Definition held_chips : list Event -> list ptr := held_chips_from [].
Definition held_lines : list Event -> list ptr := held_lines_from [].

(** ** The state-and-exception monad *)

(** How a call ends: it returns, it throws, or it cannot proceed because
    the mutex it needs is held. *)
Inductive Outcome (A : Type) : Type :=
| Returned (a : A)
| Thrown (e : exception)
| Blocked.

Arguments Thrown {A} e.
Arguments Blocked {A}.

Definition M (S A : Type) : Type := S -> Outcome A * S.

Definition ret {S A} (a : A) : M S A := fun s => (Returned a, s).

Definition bind {S A B} (m : M S A) (k : A -> M S B) : M S B :=
  fun s =>
    match m s with
    | (Returned a, s') => k a s'
    | (Thrown e, s') => (Thrown e, s')
    | (Blocked, s') => (Blocked, s')
    end.

Notation "x <- m ;; k" := (bind m (fun x => k))
  (at level 61, m at next level, right associativity).
Notation "m ;;; k" := (bind m (fun _ => k))
  (at level 61, right associativity).

Class Traced (S : Type) : Type := log : Event -> S -> S.

Definition throw {S} `{Traced S} {A} (e : exception) : M S A :=
  fun s => (Thrown e, log (EvThrow e) s).

Section WithProvider.

Context {G : Gpiod}.

Record World : Type := mkWorld {
  hw : HW;
  trace : list Event
}.

#[export] Instance World_Traced : Traced World :=
  fun ev w => {| hw := hw w; trace := trace w ++ [ev] |}.

#[export] Instance Object_Traced : Traced (DigitalPin * World) :=
  fun ev s => (fst s, log ev (snd s)).

(** Calls into libgpiod, each one recorded with its result. *)
Definition call_chip_open_by_number (num : Z) : M World ptr :=
  fun w =>
    let '(c, h) := gpiod_chip_open_by_number num (hw w) in
    (Returned c, log (EvChipOpen num c) {| hw := h; trace := trace w |}).

Definition call_chip_get_line (chip : ptr) (offset : Z) : M World ptr :=
  fun w =>
    let '(l, h) := gpiod_chip_get_line chip offset (hw w) in
    (Returned l, log (EvGetLine chip offset l) {| hw := h; trace := trace w |}).

Definition call_line_request (line : ptr) (cfg : gpiod_line_request_config)
    (default_val : Z) : M World Z :=
  fun w =>
    let '(rc, h) := gpiod_line_request line cfg default_val (hw w) in
    (Returned rc,
     log (EvLineRequest line cfg default_val rc) {| hw := h; trace := trace w |}).

Definition call_line_get_value (line : ptr) : M World Z :=
  fun w =>
    let rc := gpiod_line_get_value line (hw w) in
    (Returned rc, log (EvGetValue line rc) w).

Definition call_line_set_value (line : ptr) (v : Z) : M World Z :=
  fun w =>
    let '(rc, h) := gpiod_line_set_value line v (hw w) in
    (Returned rc, log (EvSetValue line v rc) {| hw := h; trace := trace w |}).

Definition call_line_release (line : ptr) : M World unit :=
  fun w =>
    (Returned tt,
     log (EvLineRelease line)
       {| hw := gpiod_line_release line (hw w); trace := trace w |}).

Definition call_chip_close (chip : ptr) : M World unit :=
  fun w =>
    (Returned tt,
     log (EvChipClose chip)
       {| hw := gpiod_chip_close chip (hw w); trace := trace w |}).

Definition call_strerror_errno : M World string :=
  fun w => (Returned (strerror_errno (hw w)), w).

(** ** DigitalPin::DigitalPin *)

(** The [gpiod_line_request_config] the constructor fills in. *)
Definition config_for (dir : Direction) : gpiod_line_request_config :=
  {| request_type :=
       if Direction_eqb dir Input
       then GPIOD_LINE_REQUEST_DIRECTION_INPUT
       else GPIOD_LINE_REQUEST_DIRECTION_OUTPUT;
     consumer := "DigitalPin";
     flags := 0 |}.

Definition DigitalPin_ctor (pinNumber : Z) (dir : Direction) (name : string)
  : M World DigitalPin :=
  let name0 :=
    if empty name then ("Pin" ++ to_string pinNumber)%string else name in
  chip <- call_chip_open_by_number 0 ;;
  if chip =? NULL then
    msg <- call_strerror_errno ;;
    throw (runtime_error ("Failed to open GPIO chip: " ++ msg)%string)
  else
    line <- call_chip_get_line chip (to_unsigned pinNumber) ;;
    if line =? NULL then
      call_chip_close chip ;;;
      throw (runtime_error
               ("Failed to access GPIO line for pin number "
                  ++ to_string pinNumber)%string)
    else
      let config := config_for dir in
      rc <- call_line_request line config 0 ;;
      if negb (rc =? 0) then
        call_chip_close chip ;;;
        msg <- call_strerror_errno ;;
        throw (runtime_error ("Failed to configure GPIO pin: " ++ msg)%string)
      else
        ret {| pinNumber_ := pinNumber; direction_ := dir; name_ := name0;
               chip_ := chip; line_ := line; mutex_ := Unlocked |}.

(** The declaration's default argument, [name = ""]: a construction that
    supplies no label passes the empty string. *)
Definition default_name : string := "".

Definition construct (pinNumber : Z) (dir : Direction) (name : option string)
  : M World DigitalPin :=
  DigitalPin_ctor pinNumber dir
    (match name with Some s => s | None => default_name end).

(** ** Member functions: they run on the object and the world *)

Definition Method (A : Type) : Type := M (DigitalPin * World) A.

Definition get_this : Method DigitalPin := fun s => (Returned (fst s), s).

Definition on_world {A} (m : M World A) : Method A :=
  fun s => let '(r, w') := m (snd s) in (r, (fst s, w')).

(** [std::lock_guard<std::mutex> lock(mutex_)] for the rest of the scope
    [body]: the mutex is taken first and released when the scope is left,
    by return or by exception. *)
Definition lock_guard {A} (body : Method A) : Method A :=
  fun s =>
    match mutex_ (fst s) with
    | Locked => (Blocked, s)
    | Unlocked =>
        let '(r, s') := body (log EvMutexLock (set_mutex Locked (fst s), snd s)) in
        (r, log EvMutexUnlock (set_mutex Unlocked (fst s'), snd s'))
    end.

(** The two exceptions thrown for a call against the handle's direction. *)
Definition wrong_read : exception :=
  runtime_error "Attempted to read from an output-configured pin.".

Definition wrong_write : exception :=
  runtime_error "Attempted to write to an input-configured pin.".

Definition read_body : Method bool :=
  this <- get_this ;;
  if negb (Direction_eqb (direction_ this) Input) then
    throw wrong_read
  else
    v <- on_world (call_line_get_value (line_ this)) ;;
    ret (0 <? v).

Definition read : Method bool := lock_guard read_body.

Definition write_body (value : bool) : Method unit :=
  this <- get_this ;;
  if negb (Direction_eqb (direction_ this) Output) then
    throw wrong_write
  else
    on_world (call_line_set_value (line_ this) (if value then 1 else 0)) ;;;
    ret tt.

Definition write (value : bool) : Method unit := lock_guard (write_body value).

Definition getName : Method string :=
  this <- get_this ;;
  ret (name_ this).

Definition DigitalPin_dtor : Method unit :=
  this <- get_this ;;
  (if negb (line_ this =? NULL)
   then on_world (call_line_release (line_ this))
   else ret tt) ;;;
  (if negb (chip_ this =? NULL)
   then on_world (call_chip_close (chip_ this))
   else ret tt).

End WithProvider.

(** ** A simulated provider

    One controller (number 0) with [sim_nlines] lines.  It stands in for
    libgpiod and the kernel when the model is run on concrete inputs:
    handles are fresh addresses, a line can be reserved by one consumer at
    a time, closing a controller drops its lines and their reservations. *)

Record SimHW : Type := mkSim {
  sim_chip0 : bool;                        (* controller 0 can be opened *)
  sim_nlines : Z;                          (* offsets 0 .. sim_nlines - 1 exist *)
  sim_foreign : list Z;                    (* offsets reserved by other consumers *)
  sim_level : list (Z * Z);                (* offset, electrical level (default 0) *)
  sim_next : ptr;                          (* next fresh handle address *)
  sim_chips : list ptr;                    (* open controller handles *)
  sim_lines : list (ptr * (ptr * Z));      (* line handle, its controller and offset *)
  sim_owned : list (ptr * request_type_t); (* line handles holding a reservation *)
  sim_errno : string
}.

Definition sim_set_errno (e : string) (h : SimHW) : SimHW :=
  mkSim (sim_chip0 h) (sim_nlines h) (sim_foreign h) (sim_level h) (sim_next h)
        (sim_chips h) (sim_lines h) (sim_owned h) e.

Fixpoint assoc {A} (k : Z) (l : list (Z * A)) : option A :=
  match l with
  | [] => None
  | (k', a) :: l' => if k =? k' then Some a else assoc k l'
  end.

Definition mem (k : Z) (l : list Z) : bool := existsb (Z.eqb k) l.

Definition sim_offset_of (h : SimHW) (l : ptr) : option Z :=
  option_map snd (assoc l (sim_lines h)).

Definition sim_busy (h : SimHW) (off : Z) : bool :=
  mem off (sim_foreign h)
  || existsb (fun o => match sim_offset_of h (fst o) with
                       | Some off' => off =? off'
                       | None => false
                       end) (sim_owned h).

Definition sim_chip_open_by_number (num : Z) (h : SimHW) : ptr * SimHW :=
  if (num =? 0) && sim_chip0 h then
    (sim_next h,
     mkSim (sim_chip0 h) (sim_nlines h) (sim_foreign h) (sim_level h)
           (sim_next h + 1) (sim_next h :: sim_chips h) (sim_lines h)
           (sim_owned h) (sim_errno h))
  else (NULL, sim_set_errno "No such file or directory" h).

Definition sim_chip_get_line (chip : ptr) (offset : Z) (h : SimHW) : ptr * SimHW :=
  if mem chip (sim_chips h) && (offset <? sim_nlines h) then
    (sim_next h,
     mkSim (sim_chip0 h) (sim_nlines h) (sim_foreign h) (sim_level h)
           (sim_next h + 1) (sim_chips h)
           ((sim_next h, (chip, offset)) :: sim_lines h)
           (sim_owned h) (sim_errno h))
  else (NULL, sim_set_errno "Invalid argument" h).

Definition sim_line_request (line : ptr) (cfg : gpiod_line_request_config)
    (default_val : Z) (h : SimHW) : Z * SimHW :=
  match sim_offset_of h line with
  | None => (-1, sim_set_errno "Invalid argument" h)
  | Some off =>
      if sim_busy h off then (-1, sim_set_errno "Device or resource busy" h)
      else
        (0,
         mkSim (sim_chip0 h) (sim_nlines h) (sim_foreign h)
               (match request_type cfg with
                | GPIOD_LINE_REQUEST_DIRECTION_OUTPUT =>
                    (off, default_val) :: sim_level h
                | GPIOD_LINE_REQUEST_DIRECTION_INPUT => sim_level h
                end)
               (sim_next h) (sim_chips h) (sim_lines h)
               ((line, request_type cfg) :: sim_owned h) (sim_errno h))
  end.

Definition sim_line_get_value (line : ptr) (h : SimHW) : Z :=
  match assoc line (sim_owned h), sim_offset_of h line with
  | Some _, Some off =>
      match assoc off (sim_level h) with Some v => v | None => 0 end
  | _, _ => -1
  end.

Definition sim_line_set_value (line : ptr) (v : Z) (h : SimHW) : Z * SimHW :=
  match assoc line (sim_owned h), sim_offset_of h line with
  | Some GPIOD_LINE_REQUEST_DIRECTION_OUTPUT, Some off =>
      (0,
       mkSim (sim_chip0 h) (sim_nlines h) (sim_foreign h)
             ((off, v) :: sim_level h) (sim_next h) (sim_chips h)
             (sim_lines h) (sim_owned h) (sim_errno h))
  | _, _ => (-1, sim_set_errno "Operation not permitted" h)
  end.

Definition sim_line_release (line : ptr) (h : SimHW) : SimHW :=
  mkSim (sim_chip0 h) (sim_nlines h) (sim_foreign h) (sim_level h) (sim_next h)
        (sim_chips h) (sim_lines h)
        (filter (fun o => negb (fst o =? line)) (sim_owned h)) (sim_errno h).

Definition sim_chip_close (chip : ptr) (h : SimHW) : SimHW :=
  let keep := filter (fun l => negb (fst (snd l) =? chip)) (sim_lines h) in
  mkSim (sim_chip0 h) (sim_nlines h) (sim_foreign h) (sim_level h) (sim_next h)
        (remove_ptr chip (sim_chips h)) keep
        (filter (fun o => mem (fst o) (map fst keep)) (sim_owned h))
        (sim_errno h).

#[export] Instance SimGpiod : Gpiod := {|
  HW := SimHW;
  gpiod_chip_open_by_number := sim_chip_open_by_number;
  gpiod_chip_get_line := sim_chip_get_line;
  gpiod_line_request := sim_line_request;
  gpiod_line_get_value := sim_line_get_value;
  gpiod_line_set_value := sim_line_set_value;
  gpiod_line_release := sim_line_release;
  gpiod_chip_close := sim_chip_close;
  strerror_errno := sim_errno
|}.

(** A board with 54 lines, nothing reserved, line 27 driven high. *)
Definition board : SimHW :=
  mkSim true 54 [] [(27, 1)] 4096 [] [] [] "Success".

(** The same board with line 17 reserved by another process. *)
Definition board_busy17 : SimHW :=
  mkSim true 54 [17] [(27, 1)] 4096 [] [] [] "Success".

(** A host without the controller device. *)
Definition no_board : SimHW :=
  mkSim false 0 [] [] 4096 [] [] [] "Success".

Definition boot (h : SimHW) : @World SimGpiod := {| hw := h; trace := [] |}.

(** ** DigitalPinDriver.cpp: main *)

Section Driver.

Context {G : Gpiod}.

Definition endl : string := String (ascii_of_nat 10) "".

(** One [std::cout << s] or [std::cerr << s]. *)
Definition cout (s : string) : M World unit :=
  fun w => (Returned tt, log (EvCout s) w).

Definition cerr (s : string) : M World unit :=
  fun w => (Returned tt, log (EvCerr s) w).

(** The whitespace [std::cin >> command] skips before it extracts. *)
Definition isspace (c : ascii) : bool :=
  let n := nat_of_ascii c in
  ((9 <=? n) && (n <=? 13))%nat || (n =? 32)%nat.

(** The automatic objects of the [try] block, the unread part of
    [std::cin], and the world. *)
Record Driver : Type := mkDriver {
  outputPin : DigitalPin;
  inputPin : DigitalPin;
  unread : string;
  world : World
}.

#[export] Instance Driver_Traced : Traced Driver :=
  fun ev d =>
    {| outputPin := outputPin d; inputPin := inputPin d; unread := unread d;
       world := log ev (world d) |}.

Definition on_outputPin {A} (m : Method A) : M Driver A :=
  fun d =>
    let '(r, (p, w)) := m (outputPin d, world d) in
    (r, {| outputPin := p; inputPin := inputPin d; unread := unread d;
           world := w |}).

Definition on_inputPin {A} (m : Method A) : M Driver A :=
  fun d =>
    let '(r, (p, w)) := m (inputPin d, world d) in
    (r, {| outputPin := outputPin d; inputPin := p; unread := unread d;
           world := w |}).

Definition console {A} (m : M World A) : M Driver A :=
  fun d =>
    let '(r, w) := m (world d) in
    (r, {| outputPin := outputPin d; inputPin := inputPin d;
           unread := unread d; world := w |}).

Definition set_unread (rest : string) : M Driver unit :=
  fun d =>
    (Returned tt,
     {| outputPin := outputPin d; inputPin := inputPin d; unread := rest;
        world := world d |}).

(** The [switch (command)] of one iteration; it yields the new value of
    [running].  The operands of [<<] are evaluated left to right, so
    ["Button state: "] is written before [inputPin.read()] is called. *)
Definition process_command (command : ascii) : M Driver bool :=
  match command with
  | "1"%char =>
      on_outputPin (write true) ;;;
      console (cout "LED turned ON.") ;;; console (cout endl) ;;;
      ret true
  | "0"%char =>
      on_outputPin (write false) ;;;
      console (cout "LED turned OFF.") ;;; console (cout endl) ;;;
      ret true
  | "r"%char =>
      console (cout "Button state: ") ;;;
      b <- on_inputPin read ;;
      console (cout (if b then "Pressed" else "Not pressed")) ;;;
      console (cout endl) ;;;
      ret true
  | "q"%char => ret false
  | _ =>
      console (cout "Invalid command.") ;;; console (cout endl) ;;;
      ret true
  end.

(** How the [while (running)] loop stops without an exception: [running]
    became false, or the input stream ran dry.  In the second case the
    extraction fails, [command] keeps its value and the loop goes on
    executing it without ever leaving; the model stops there. *)
Inductive LoopEnd : Type := Quit | Starved.

Fixpoint command_loop (cin : string) : M Driver LoopEnd :=
  match cin with
  | EmptyString => ret Starved
  | String c rest =>
      set_unread rest ;;;
      if isspace c then command_loop rest
      else
        running <- process_command c ;;
        if running then command_loop rest else ret Quit
  end.

(** Leaving the [try] block, normally or by exception, destroys
    [inputPin] and then [outputPin]. *)
Definition destroy (p : DigitalPin) (w : World) : World :=
  snd (snd (DigitalPin_dtor (p, w))).

Definition leave_scope (d : Driver) : World :=
  destroy (outputPin d) (destroy (inputPin d) (world d)).

(** [catch (const std::exception& e)]. *)
Definition handler (e : exception) : M World unit :=
  cerr "Error: " ;;; cerr (what e) ;;; cerr endl.

(** The statements after the [try]/[catch]; the value is [main]'s. *)
Definition epilogue : M World Z :=
  cout "Exiting DigitalPin Driver Application." ;;; cout endl ;;; ret 0.

Definition after_catch (e : exception) : M World Z :=
  handler e ;;; epilogue.

(** What [main] ends with: its return value when it returns, the unread
    input, the world. *)
Record MainEnd : Type := mkMainEnd {
  exit_code : option Z;
  left_unread : string;
  final : World
}.

Definition finish (rest : string) (r : Outcome Z * World) : MainEnd :=
  {| exit_code := match fst r with Returned z => Some z | _ => None end;
     left_unread := rest;
     final := snd r |}.

(** From the [while] statement to the end of [main], for the two pins and
    the input held in [d]. *)
Definition session (d : Driver) : MainEnd :=
  match command_loop (unread d) d with
  | (Returned Quit, d') => finish (unread d') (epilogue (leave_scope d'))
  | (Returned Starved, d') =>
      {| exit_code := None; left_unread := unread d'; final := world d' |}
  | (Thrown e, d') => finish (unread d') (after_catch e (leave_scope d'))
  | (Blocked, d') =>
      {| exit_code := None; left_unread := unread d'; final := world d' |}
  end.

Definition main (cin : string) (w0 : World) : MainEnd :=
  let w1 :=
    snd ((cout "DigitalPin Driver Application" ;;; cout endl) w0) in
  match DigitalPin_ctor 17 Output "LED" w1 with
  | (Thrown e, w2) => finish cin (after_catch e w2)
  | (Blocked, w2) => {| exit_code := None; left_unread := cin; final := w2 |}
  | (Returned outputPin0, w2) =>
      match DigitalPin_ctor 27 Input "Button" w2 with
      | (Thrown e, w3) => finish cin (after_catch e (destroy outputPin0 w3))
      | (Blocked, w3) =>
          {| exit_code := None; left_unread := cin; final := w3 |}
      | (Returned inputPin0, w3) =>
          let w4 :=
            snd ((cout "Setup complete. Press '1' to turn on the LED, '0' to turn off, and 'r' to read the button state. Press 'q' to quit."
                  ;;; cout endl) w3) in
          session {| outputPin := outputPin0; inputPin := inputPin0;
                     unread := cin; world := w4 |}
      end
  end.

(** The driver state once [std::cin >> command] has taken a character
    and left [rest] unread. *)
Definition taken (rest : string) (d : Driver) : Driver :=
  {| outputPin := outputPin d; inputPin := inputPin d; unread := rest;
     world := world d |}.

(** A computation that leaves the input stream where it is. *)
Definition keeps_unread {A} (m : M Driver A) : Prop :=
  forall d, unread (snd (m d)) = unread d.

End Driver.

(** The two handles of the demo, constructed on the simulated board. *)
Definition led_pin : DigitalPin :=
  mkDigitalPin 17 Output "LED" 4096 4097 Unlocked.

Definition led_world : @World SimGpiod :=
  snd (DigitalPin_ctor 17 Output "LED" (boot board)).

Definition button_pin : DigitalPin :=
  mkDigitalPin 27 Input "Button" 4096 4097 Unlocked.

Definition button_world : @World SimGpiod :=
  snd (DigitalPin_ctor 27 Input "Button" (boot board)).

(** ** Sequences of calls on one handle *)

Section Calls.

Context {G : Gpiod}.

Inductive Op : Type := OpRead | OpWrite (value : bool) | OpGetName.

Definition apply_op (o : Op) (s : DigitalPin * World) : DigitalPin * World :=
  match o with
  | OpRead => snd (read s)
  | OpWrite v => snd (write v s)
  | OpGetName => snd (getName s)
  end.

Definition run_ops (ops : list Op) (s : DigitalPin * World)
  : DigitalPin * World :=
  fold_left (fun s o => apply_op o s) ops s.

(** ** Threads sharing one handle

    [read] and [write] are each a guard constructor, a body and a guard
    destructor.  Threads interleave between these three steps; a thread
    whose next step is the guard constructor cannot take it while the
    mutex is locked. *)

Inductive Call : Type := CallRead | CallWrite (value : bool).

Definition body_of (c : Call) : Method (option bool) :=
  match c with
  | CallRead => b <- read_body ;; ret (Some b)
  | CallWrite v => write_body v ;;; ret None
  end.

Inductive Pc : Type :=
| Idle
| Entering (c : Call)
| Holding (c : Call)
| Leaving (c : Call) (r : Outcome (option bool)).

Record Thread : Type := mkThread {
  pc : Pc;
  todo : list Call;
  results : list (Call * Outcome (option bool))
}.

Inductive Action : Type :=
| ActCall (c : Call)
| ActAcquire (c : Call)
| ActBody (c : Call)
| ActRelease (c : Call).

Record Shared : Type := mkShared {
  object : DigitalPin;
  env : World;
  threads : list Thread;
  history : list (nat * Action)
}.

Fixpoint set_nth {A} (n : nat) (x : A) (l : list A) : list A :=
  match l, n with
  | [], _ => []
  | _ :: l', O => x :: l'
  | y :: l', S n' => y :: set_nth n' x l'
  end.

(** One step of thread [t], when it can take one. *)
Definition step (t : nat) (st : Shared) : option Shared :=
  match nth_error (threads st) t with
  | None => None
  | Some th =>
      match pc th with
      | Idle =>
          match todo th with
          | [] => None
          | c :: cs =>
              Some {| object := object st; env := env st;
                      threads :=
                        set_nth t (mkThread (Entering c) cs (results th))
                                (threads st);
                      history := history st ++ [(t, ActCall c)] |}
          end
      | Entering c =>
          match mutex_ (object st) with
          | Locked => None
          | Unlocked =>
              Some {| object := set_mutex Locked (object st);
                      env := log EvMutexLock (env st);
                      threads :=
                        set_nth t (mkThread (Holding c) (todo th) (results th))
                                (threads st);
                      history := history st ++ [(t, ActAcquire c)] |}
          end
      | Holding c =>
          let '(r, (p, w)) := body_of c (object st, env st) in
          Some {| object := p; env := w;
                  threads :=
                    set_nth t (mkThread (Leaving c r) (todo th) (results th))
                            (threads st);
                  history := history st ++ [(t, ActBody c)] |}
      | Leaving c r =>
          Some {| object := set_mutex Unlocked (object st);
                  env := log EvMutexUnlock (env st);
                  threads :=
                    set_nth t (mkThread Idle (todo th) (results th ++ [(c, r)]))
                            (threads st);
                  history := history st ++ [(t, ActRelease c)] |}
      end
  end.

(** A schedule names the thread that is offered each next step; a thread
    that cannot move leaves the state as it is. *)
Fixpoint run (sched : list nat) (st : Shared) : Shared :=
  match sched with
  | [] => st
  | t :: sched' =>
      run sched' (match step t st with Some st' => st' | None => st end)
  end.

Definition spawn (p : DigitalPin) (w : World) (work : list (list Call))
  : Shared :=
  {| object := p; env := w;
     threads := map (fun cs => mkThread Idle cs []) work;
     history := [] |}.

(** A thread is inside a call's critical section. *)
Definition in_cs (th : Thread) : bool :=
  match pc th with
  | Holding _ | Leaving _ _ => true
  | _ => false
  end.

Fixpoint acquisitions (h : list (nat * Action)) : list (nat * Call) :=
  match h with
  | [] => []
  | (t, ActAcquire c) :: h' => (t, c) :: acquisitions h'
  | _ :: h' => acquisitions h'
  end.

Fixpoint executions (h : list (nat * Action)) : list (nat * Call) :=
  match h with
  | [] => []
  | (t, ActBody c) :: h' => (t, c) :: executions h'
  | _ :: h' => executions h'
  end.

(** Reading a trace against the mutex: locks and unlocks alternate, and
    hardware accesses and throws fall between a lock and its unlock.  The
    result is the state the mutex is left in. *)
Fixpoint scan (m : mutex) (tr : list Event) : option mutex :=
  match tr with
  | [] => Some m
  | EvMutexLock :: tr' =>
      match m with Unlocked => scan Locked tr' | Locked => None end
  | EvMutexUnlock :: tr' =>
      match m with Locked => scan Unlocked tr' | Unlocked => None end
  | _ :: tr' =>
      match m with Locked => scan Locked tr' | Unlocked => None end
  end.

(** What every interleaving keeps true, for a run that started with the
    trace [base]: at most one thread is inside a critical section, a
    thread inside one holds the mutex, the trace since [base] reads
    correctly against the mutex, and the bodies have run in the order of
    the lock acquisitions (the one thread that holds the lock without
    having run its body yet being the last acquisition). *)
Record serial_inv (base : list Event) (st : Shared) : Prop := mkSerialInv {
  inv_exclusive :
    forall i j thi thj,
      nth_error (threads st) i = Some thi ->
      nth_error (threads st) j = Some thj ->
      in_cs thi = true -> in_cs thj = true -> i = j;
  inv_holder :
    forall i thi,
      nth_error (threads st) i = Some thi ->
      in_cs thi = true -> mutex_ (object st) = Locked;
  inv_trace :
    exists delta,
      trace (env st) = base ++ delta /\
      scan Unlocked delta = Some (mutex_ (object st));
  inv_order_holding :
    forall i thi c,
      nth_error (threads st) i = Some thi ->
      pc thi = Holding c ->
      acquisitions (history st) = executions (history st) ++ [(i, c)];
  inv_order_idle :
    (forall i thi c,
       nth_error (threads st) i = Some thi -> pc thi <> Holding c) ->
    acquisitions (history st) = executions (history st)
}.

End Calls.

(** ** Vocabulary for the further properties *)

(** An event that acquires or gives back a controller or a line. *)
Definition is_lifecycle (ev : Event) : bool :=
  match ev with
  | EvChipOpen _ _ | EvGetLine _ _ _ | EvLineRequest _ _ _ _
  | EvLineRelease _ | EvChipClose _ => true
  | _ => false
  end.

Definition is_report (ev : Event) : bool :=
  match ev with
  | EvCerr _ | EvThrow _ => true
  | _ => false
  end.

Section DriverVocabulary.

Context {G : Gpiod}.

(** What the destructor of [p] adds to the trace and does to the
    provider. *)
Definition dtor_events (p : DigitalPin) : list Event :=
  (if line_ p =? NULL then [] else [EvLineRelease (line_ p)])
    ++ (if chip_ p =? NULL then [] else [EvChipClose (chip_ p)]).

Definition dtor_hw (p : DigitalPin) (h : HW) : HW :=
  (if chip_ p =? NULL then fun h => h else gpiod_chip_close (chip_ p))
    ((if line_ p =? NULL then fun h => h else gpiod_line_release (line_ p)) h).

(** The world once [main] has written its first line. *)
Definition greeted (w0 : World) : World :=
  snd ((cout "DigitalPin Driver Application" ;;; cout endl) w0).

(** The handles as [main] constructs them: the output pin an Output
    handle, the input pin an Input handle, no call in progress. *)
Definition ready (d : Driver) : Prop :=
  direction_ (outputPin d) = Output /\ mutex_ (outputPin d) = Unlocked /\
  direction_ (inputPin d) = Input /\ mutex_ (inputPin d) = Unlocked.

End DriverVocabulary.

Section ThreadVocabulary.

Context {G : Gpiod}.

Definition op_of_call (c : Call) : Op :=
  match c with
  | CallRead => OpRead
  | CallWrite v => OpWrite v
  end.

(** The member function a call names, with its result. *)
Definition member_of (c : Call) : Method (option bool) :=
  match c with
  | CallRead => b <- read ;; ret (Some b)
  | CallWrite v => write v ;;; ret None
  end.

(** The calls whose bodies thread [i] has run, in the order it ran
    them. *)
Definition calls_of (i : nat) (h : list (nat * Action)) : list Call :=
  map snd (filter (fun tc => Nat.eqb (fst tc) i) (executions h)).

(** The calls whose bodies have run, in the order they ran. *)
Definition serial_order (h : list (nat * Action)) : list Op :=
  map (fun tc => op_of_call (snd tc)) (executions h).

(** How an interleaved state stands to the one-after-the-other execution
    [s] of the bodies run so far: equal to it when no call is in
    progress; one lock ahead of it when a thread holds the mutex and has
    not run its body; one unlock short of it when the body has run. *)
Record lin_inv (s0 : DigitalPin * World) (st : Shared) : Prop := mkLinInv {
  lin_quiet :
    (forall i thi, nth_error (threads st) i = Some thi -> in_cs thi = false) ->
    (object st, env st) = run_ops (serial_order (history st)) s0;
  lin_holding :
    forall i thi c,
      nth_error (threads st) i = Some thi -> pc thi = Holding c ->
      (object st, env st) =
      log EvMutexLock
        (set_mutex Locked (fst (run_ops (serial_order (history st)) s0)),
         snd (run_ops (serial_order (history st)) s0));
  lin_leaving :
    forall i thi c r,
      nth_error (threads st) i = Some thi -> pc thi = Leaving c r ->
      log EvMutexUnlock (set_mutex Unlocked (object st), env st) =
      run_ops (serial_order (history st)) s0
}.

(** The result a call has on a handle of direction [dir]. *)
Definition fits (dir : Direction) (c : Call) (r : Outcome (option bool))
  : Prop :=
  match dir, c, r with
  | Output, CallRead, Thrown e => e = wrong_read
  | Output, CallWrite _, Returned None => True
  | Input, CallRead, Returned (Some _) => True
  | Input, CallWrite _, Thrown e => e = wrong_write
  | _, _, _ => False
  end.

(** The call a thread is in the middle of. *)
Definition current (th : Thread) : list Call :=
  match pc th with
  | Idle => []
  | Entering c | Holding c | Leaving c _ => [c]
  end.

(** A thread has made all its calls. *)
Definition finished (th : Thread) : bool :=
  match pc th, todo th with
  | Idle, [] => true
  | _, _ => false
  end.

(** The steps a thread still has to take. *)
Definition weight (th : Thread) : nat :=
  (4 * List.length (todo th)
   + match pc th with
     | Idle => 0
     | Entering _ => 3
     | Holding _ => 2
     | Leaving _ _ => 1
     end)%nat.

Fixpoint total_weight (l : list Thread) : nat :=
  match l with
  | [] => 0%nat
  | th :: l' => (weight th + total_weight l')%nat
  end.

End ThreadVocabulary.

Section ThreadBooks.

Context {G : Gpiod}.

(** What every interleaving keeps true of the threads' books, for a
    handle of direction [dir] and threads given the calls [work]. *)
Record thread_inv (dir : Direction) (work : list (list Call)) (st : Shared)
  : Prop := mkThreadInv {
  books_direction : direction_ (object st) = dir;
  books_calls :
    forall i thi,
      nth_error (threads st) i = Some thi ->
      exists cs,
        nth_error work i = Some cs /\
        map fst (results thi) ++ current thi ++ todo thi = cs;
  books_results :
    forall i thi c r,
      nth_error (threads st) i = Some thi ->
      In (c, r) (results thi) -> fits dir c r;
  books_leaving :
    forall i thi c r,
      nth_error (threads st) i = Some thi ->
      pc thi = Leaving c r -> fits dir c r
}.

(** A locked mutex has a thread that will unlock it. *)
Definition holder_inv (st : Shared) : Prop :=
  mutex_ (object st) = Locked ->
  exists i thi, nth_error (threads st) i = Some thi /\ in_cs thi = true.

(** The bodies a thread has run are the calls it has completed and the
    one whose guard has still to be destroyed. *)
Definition exec_inv (st : Shared) : Prop :=
  forall i thi,
    nth_error (threads st) i = Some thi ->
    calls_of i (history st)
    = map fst (results thi)
        ++ match pc thi with Leaving c _ => [c] | _ => [] end.

Definition all_finished (st : Shared) : Prop :=
  forall i thi, nth_error (threads st) i = Some thi -> finished thi = true.

End ThreadBooks.

(** The simulated board with line 27 reserved by another process. *)
Definition board_busy27 : SimHW :=
  mkSim true 54 [27] [] 4096 [] [] [] "Success".

(** The driver state [main] reaches on the simulated board once both
    pins are constructed, with [cin] still to be read. *)
Definition demo (cin : string) : @Driver SimGpiod :=
  match (p <- DigitalPin_ctor 17 Output "LED" ;;
         q <- DigitalPin_ctor 27 Input "Button" ;;
         ret (p, q)) (boot board) with
  | (Returned (p, q), w) =>
      {| outputPin := p; inputPin := q; unread := cin; world := w |}
  | (_, w) =>
      {| outputPin := mkDigitalPin 17 Output "LED" NULL NULL Unlocked;
         inputPin := mkDigitalPin 27 Input "Button" NULL NULL Unlocked;
         unread := cin; world := w |}
  end.

(** * Properties *)

Ltac unfold_monad :=
  unfold read, write, getName, DigitalPin_dtor, lock_guard, read_body,
    write_body, get_this, on_world, bind, ret, throw, call_line_get_value,
    call_line_set_value, call_line_release, call_chip_close,
    call_chip_open_by_number, call_chip_get_line, call_line_request,
    call_strerror_errno, log, Object_Traced, World_Traced in *;
  cbn [fst snd hw trace mutex_ direction_ line_ chip_ name_ pinNumber_
       set_mutex] in *.

Ltac close_trace :=
  unfold log, Object_Traced, World_Traced; cbn [fst snd hw trace];
  rewrite <- ?app_assoc; reflexivity.

Lemma set_mutex_relock (p : DigitalPin) :
  mutex_ p = Unlocked -> set_mutex Unlocked (set_mutex Locked p) = p.
Proof. destruct p; cbn; intros ->; reflexivity. Qed.

(** [to_string] is the decimal rendering: reading it back gives the number. *)
Lemma to_string_decimal (n : Z) :
  option_map Z.of_int (NilZero.int_of_string (to_string n)) = Some n.
Proof.
  unfold to_string.
  rewrite NilZero.isi.
  - cbn. now rewrite DecimalZ.of_to.
  - destruct n; cbn; try discriminate.
    intros H; injection H. apply DecimalPos.Unsigned.to_uint_nonnil.
  - destruct n; cbn; try discriminate.
    intros H; injection H. apply DecimalPos.Unsigned.to_uint_nonnil.
Qed.

Section PinFacts.

Context {G : Gpiod}.

(** A construction that returns went through all three acquisitions. *)
Lemma DigitalPin_ctor_returned n dir name w p w' :
  DigitalPin_ctor n dir name w = (Returned p, w') ->
  exists c h1 l h2 h3,
    gpiod_chip_open_by_number 0 (hw w) = (c, h1) /\ c <> NULL /\
    gpiod_chip_get_line c (to_unsigned n) h1 = (l, h2) /\ l <> NULL /\
    gpiod_line_request l (config_for dir) 0 h2 = (0, h3) /\
    p = {| pinNumber_ := n; direction_ := dir;
           name_ := if empty name then ("Pin" ++ to_string n)%string else name;
           chip_ := c; line_ := l; mutex_ := Unlocked |} /\
    w' = {| hw := h3;
            trace := trace w ++ [EvChipOpen 0 c; EvGetLine c (to_unsigned n) l;
                                 EvLineRequest l (config_for dir) 0 0] |}.
Proof.
  unfold DigitalPin_ctor. unfold_monad.
  destruct (gpiod_chip_open_by_number 0 (hw w)) as [c h1] eqn:Ho.
  destruct (c =? NULL) eqn:Ec; [discriminate|].
  cbn [hw trace].
  destruct (gpiod_chip_get_line c (to_unsigned n) h1) as [l h2] eqn:Hl.
  destruct (l =? NULL) eqn:El; [discriminate|].
  cbn [hw trace].
  destruct (gpiod_line_request l (config_for dir) 0 h2) as [rc h3] eqn:Hr.
  destruct (rc =? 0) eqn:Erc; cbn [negb]; [|discriminate].
  intros H; inversion H; subst; clear H.
  apply Z.eqb_eq in Erc; subst rc.
  apply Z.eqb_neq in Ec, El.
  exists c, h1, l, h2, h3.
  repeat split; auto.
  rewrite <- !app_assoc. reflexivity.
Qed.

(** [read] on a handle whose mutex is free. *)
Lemma read_unlocked p w :
  mutex_ p = Unlocked ->
  read (p, w) =
  match direction_ p with
  | Input =>
      let raw := gpiod_line_get_value (line_ p) (hw w) in
      (Returned (0 <? raw),
       (p, {| hw := hw w;
              trace := trace w ++ [EvMutexLock; EvGetValue (line_ p) raw;
                                   EvMutexUnlock] |}))
  | Output =>
      (Thrown wrong_read,
       (p, {| hw := hw w;
              trace := trace w ++ [EvMutexLock; EvThrow wrong_read;
                                   EvMutexUnlock] |}))
  end.
Proof.
  intros Hm. unfold_monad. rewrite Hm.
  destruct (direction_ p) eqn:Hd; cbn; rewrite (set_mutex_relock p Hm);
    close_trace.
Qed.

(** [write] on a handle whose mutex is free. *)
Lemma write_unlocked value p w :
  mutex_ p = Unlocked ->
  write value (p, w) =
  match direction_ p with
  | Output =>
      let v := if value then 1 else 0 in
      let '(rc, h) := gpiod_line_set_value (line_ p) v (hw w) in
      (Returned tt,
       (p, {| hw := h;
              trace := trace w ++ [EvMutexLock; EvSetValue (line_ p) v rc;
                                   EvMutexUnlock] |}))
  | Input =>
      (Thrown wrong_write,
       (p, {| hw := hw w;
              trace := trace w ++ [EvMutexLock; EvThrow wrong_write;
                                   EvMutexUnlock] |}))
  end.
Proof.
  intros Hm. unfold_monad. rewrite Hm.
  destruct (direction_ p) eqn:Hd; cbn.
  - rewrite (set_mutex_relock p Hm). close_trace.
  - destruct (gpiod_line_set_value (line_ p) (if value then 1 else 0) (hw w))
      as [rc h]; cbn.
    rewrite (set_mutex_relock p Hm). close_trace.
Qed.

(** No call changes the object it is made on. *)
Lemma apply_op_object o p w :
  mutex_ p = Unlocked -> fst (apply_op o (p, w)) = p.
Proof.
  intros Hm. destruct o; unfold apply_op.
  - rewrite read_unlocked by assumption. destruct (direction_ p); reflexivity.
  - rewrite write_unlocked by assumption.
    destruct (direction_ p); [reflexivity|].
    cbv zeta. destruct (gpiod_line_set_value _ _ _); reflexivity.
  - reflexivity.
Qed.

Lemma run_ops_object ops : forall p w,
  mutex_ p = Unlocked -> fst (run_ops ops (p, w)) = p.
Proof.
  induction ops as [|o ops IH]; intros p w Hm; [reflexivity|].
  unfold run_ops in *. cbn [fold_left].
  pose proof (apply_op_object o p w Hm) as Ho.
  destruct (apply_op o (p, w)) as [p1 w1]. cbn in Ho. subst p1.
  apply IH, Hm.
Qed.

(** A constructed handle, after any calls, is the handle construction
    returned. *)
Lemma constructed_then_ops n dir name w p w' ops p1 w1 :
  DigitalPin_ctor n dir name w = (Returned p, w') ->
  run_ops ops (p, w') = (p1, w1) ->
  p1 = p /\ direction_ p = dir /\ mutex_ p = Unlocked /\
  name_ p = (if empty name then ("Pin" ++ to_string n)%string else name) /\
  line_ p <> NULL /\ chip_ p <> NULL.
Proof.
  intros Hc Hr.
  destruct (DigitalPin_ctor_returned _ _ _ _ Hc)
    as (c & h1 & l & h2 & h3 & _ & Hcn & _ & Hln & _ & -> & _).
  match type of Hr with run_ops _ (?q, _) = _ =>
    pose proof (run_ops_object ops q w' eq_refl) as Ho
  end.
  rewrite Hr in Ho. cbn in Ho. subst p1. cbn. repeat split; auto.
Qed.

(** C1. A handle constructed with direction Output, after any calls made
    on it: [read] throws the wrong-direction error.  The provider state is
    the one before the call, the object is unchanged, and the trace gains
    the lock, the throw and the unlock, in that order: the line is not
    queried, nothing is changed, and the direction check throws between
    the lock and its release. *)
Theorem read_on_output_throws n name w p w' ops p1 w1 :
  DigitalPin_ctor n Output name w = (Returned p, w') ->
  run_ops ops (p, w') = (p1, w1) ->
  read (p1, w1) =
    (Thrown (runtime_error "Attempted to read from an output-configured pin."),
     (p1, {| hw := hw w1;
             trace := trace w1 ++ [EvMutexLock;
                                   EvThrow (runtime_error "Attempted to read from an output-configured pin.");
                                   EvMutexUnlock] |}))
  /\ existsb is_hw_access
       [EvMutexLock;
        EvThrow (runtime_error "Attempted to read from an output-configured pin.");
        EvMutexUnlock] = false.
Proof.
  intros Hc Hr.
  destruct (constructed_then_ops _ _ _ _ _ Hc Hr) as (-> & Hd & Hm & _).
  split; [|reflexivity].
  rewrite read_unlocked by assumption. rewrite Hd. reflexivity.
Qed.

(** C2. A handle constructed with direction Input, after any calls made
    on it: [write], for either value, throws the wrong-direction error;
    the provider state and the object are unchanged and the trace gains
    only the lock, the throw and the unlock. *)
Theorem write_on_input_throws n name w p w' ops p1 w1 (value : bool) :
  DigitalPin_ctor n Input name w = (Returned p, w') ->
  run_ops ops (p, w') = (p1, w1) ->
  write value (p1, w1) =
    (Thrown (runtime_error "Attempted to write to an input-configured pin."),
     (p1, {| hw := hw w1;
             trace := trace w1 ++ [EvMutexLock;
                                   EvThrow (runtime_error "Attempted to write to an input-configured pin.");
                                   EvMutexUnlock] |}))
  /\ existsb is_hw_access
       [EvMutexLock;
        EvThrow (runtime_error "Attempted to write to an input-configured pin.");
        EvMutexUnlock] = false.
Proof.
  intros Hc Hr.
  destruct (constructed_then_ops _ _ _ _ _ Hc Hr) as (-> & Hd & Hm & _).
  split; [|reflexivity].
  rewrite write_unlocked by assumption. rewrite Hd. reflexivity.
Qed.

(** C5. A handle constructed with direction Input, after any calls made
    on it: [read] returns whether the raw value of the line query is
    greater than zero (false for zero and for negative values).  The one
    provider call is the query; the provider state and the object are
    unchanged. *)
Theorem read_on_input_value n name w p w' ops p1 w1 :
  DigitalPin_ctor n Input name w = (Returned p, w') ->
  run_ops ops (p, w') = (p1, w1) ->
  let raw := gpiod_line_get_value (line_ p1) (hw w1) in
  read (p1, w1) =
    (Returned (0 <? raw),
     (p1, {| hw := hw w1;
             trace := trace w1 ++ [EvMutexLock; EvGetValue (line_ p1) raw;
                                   EvMutexUnlock] |}))
  /\ ((0 <? raw) = true <-> raw > 0)
  /\ ((0 <? raw) = false <-> raw <= 0)
  /\ existsb is_hw_update
       [EvMutexLock; EvGetValue (line_ p1) raw; EvMutexUnlock] = false.
Proof.
  intros Hc Hr raw.
  destruct (constructed_then_ops _ _ _ _ _ Hc Hr) as (-> & Hd & Hm & _).
  repeat split; try reflexivity.
  - rewrite read_unlocked by assumption. rewrite Hd. reflexivity.
  - intros H. apply Z.ltb_lt in H. lia.
  - intros H. apply Z.ltb_lt. lia.
  - intros H. apply Z.ltb_ge in H. lia.
  - intros H. apply Z.ltb_ge. lia.
Qed.

(** C3. When the controller was opened (handle [c], not null) and the
    construction throws, it threw for one of two reasons: the line lookup
    returned null, or the request was rejected.  In both the last provider
    call is the close of [c], made before the throw; the calls of the
    failed construction leave no controller open and no line reserved. *)
Theorem failed_construction_closes_controller n dir name w c h1 e w' :
  gpiod_chip_open_by_number 0 (hw w) = (c, h1) ->
  c <> NULL ->
  DigitalPin_ctor n dir name w = (Thrown e, w') ->
  exists l h2 pre,
    gpiod_chip_get_line c (to_unsigned n) h1 = (l, h2) /\
    ((l = NULL /\
      pre = [EvChipOpen 0 c; EvGetLine c (to_unsigned n) NULL] /\
      hw w' = gpiod_chip_close c h2 /\
      e = runtime_error
            ("Failed to access GPIO line for pin number " ++ to_string n)%string)
     \/
     (l <> NULL /\
      exists rc h3,
        gpiod_line_request l (config_for dir) 0 h2 = (rc, h3) /\ rc <> 0 /\
        pre = [EvChipOpen 0 c; EvGetLine c (to_unsigned n) l;
               EvLineRequest l (config_for dir) 0 rc] /\
        hw w' = gpiod_chip_close c h3 /\
        e = runtime_error
              ("Failed to configure GPIO pin: "
                 ++ strerror_errno (gpiod_chip_close c h3))%string)) /\
    trace w' = trace w ++ pre ++ [EvChipClose c; EvThrow e] /\
    held_chips (pre ++ [EvChipClose c; EvThrow e]) = [] /\
    held_lines (pre ++ [EvChipClose c; EvThrow e]) = [].
Proof.
  intros Ho Hc. unfold DigitalPin_ctor. unfold_monad. rewrite Ho.
  pose proof Hc as Hc'. apply Z.eqb_neq in Hc'. rewrite Hc'.
  cbn [hw trace].
  destruct (gpiod_chip_get_line c (to_unsigned n) h1) as [l h2] eqn:Hl.
  destruct (l =? NULL) eqn:El.
  - apply Z.eqb_eq in El. subst l. cbn [hw trace].
    intros H; inversion H; subst; clear H.
    exists NULL, h2, [EvChipOpen 0 c; EvGetLine c (to_unsigned n) NULL].
    split; [reflexivity|]. split; [left; repeat split; reflexivity|].
    split; [cbn [hw trace]; rewrite <- !app_assoc; reflexivity|].
    split.
    + cbn [app]. unfold held_chips. cbn [held_chips_from remove_ptr].
      rewrite Hc'. cbn [held_chips_from remove_ptr]. rewrite Z.eqb_refl.
      reflexivity.
    + reflexivity.
  - apply Z.eqb_neq in El. cbn [hw trace].
    destruct (gpiod_line_request l (config_for dir) 0 h2) as [rc h3] eqn:Hr.
    destruct (rc =? 0) eqn:Erc; cbn [negb]; [discriminate|].
    cbn [hw trace].
    intros H; inversion H; subst; clear H.
    exists l, h2, [EvChipOpen 0 c; EvGetLine c (to_unsigned n) l;
                   EvLineRequest l (config_for dir) 0 rc].
    split; [reflexivity|].
    split.
    { right. split; [assumption|]. exists rc, h3.
      apply Z.eqb_neq in Erc. repeat split; auto. }
    split; [cbn [hw trace]; rewrite <- !app_assoc; reflexivity|].
    split.
    + cbn [app]. unfold held_chips. cbn [held_chips_from remove_ptr].
      rewrite Hc'. cbn [held_chips_from remove_ptr]. rewrite Z.eqb_refl.
      reflexivity.
    + cbn [app]. unfold held_lines. cbn [held_lines_from]. rewrite Erc.
      reflexivity.
Qed.

(** The destructor assigns to no member. *)
Lemma DigitalPin_dtor_object (s : DigitalPin * World) :
  fst (snd (DigitalPin_dtor s)) = fst s.
Proof.
  destruct s as [p w]. unfold_monad.
  destruct (line_ p =? NULL), (chip_ p =? NULL); reflexivity.
Qed.

(** C7. The destructor never throws and never blocks.  It releases the
    line when [line_] is not null, then closes the controller when
    [chip_] is not null; a null handle's step is skipped.  The object is
    left as it was. *)
Theorem dtor_releases_then_closes (p : DigitalPin) (w : World) :
  DigitalPin_dtor (p, w) =
    (Returned tt,
     (p,
      {| hw :=
           (if chip_ p =? NULL then fun h => h else gpiod_chip_close (chip_ p))
             ((if line_ p =? NULL then fun h => h
               else gpiod_line_release (line_ p)) (hw w));
         trace :=
           trace w
             ++ (if line_ p =? NULL then [] else [EvLineRelease (line_ p)])
             ++ (if chip_ p =? NULL then [] else [EvChipClose (chip_ p)]) |})).
Proof.
  unfold_monad.
  destruct (line_ p =? NULL), (chip_ p =? NULL); cbn;
    rewrite <- ?app_assoc, ?app_nil_r; destruct w; reflexivity.
Qed.

(** C8. The direction given to the constructor is the handle's direction
    after construction, after any sequence of [read], [write] and
    [getName] calls, and after the destructor has run. *)
Theorem direction_never_changes n dir name w p w' :
  DigitalPin_ctor n dir name w = (Returned p, w') ->
  direction_ p = dir /\
  forall ops,
    direction_ (fst (run_ops ops (p, w'))) = dir /\
    direction_ (fst (snd (DigitalPin_dtor (run_ops ops (p, w'))))) = dir.
Proof.
  intros Hc.
  assert (Hp : direction_ p = dir /\ mutex_ p = Unlocked).
  { destruct (DigitalPin_ctor_returned _ _ _ _ Hc)
      as (c & h1 & l & h2 & h3 & _ & _ & _ & _ & _ & -> & _).
    split; reflexivity. }
  destruct Hp as [Hd Hm]. split; [assumption|].
  intros ops.
  pose proof (run_ops_object ops p w' Hm) as Ho.
  rewrite DigitalPin_dtor_object, Ho. auto.
Qed.

(** C6. After a successful construction and any later calls, [getName]
    returns the label that was supplied when it was not empty, and
    ["Pin"] followed by the decimal rendering of the pin number when none
    was supplied; it leaves the object and the world as they were. *)
Theorem getName_returns_label n dir w :
  (forall s p w',
     s <> ""%string ->
     construct n dir (Some s) w = (Returned p, w') ->
     forall ops,
       getName (run_ops ops (p, w')) = (Returned s, run_ops ops (p, w'))) /\
  (forall p w',
     construct n dir None w = (Returned p, w') ->
     forall ops,
       getName (run_ops ops (p, w'))
       = (Returned ("Pin" ++ to_string n)%string, run_ops ops (p, w'))) /\
  option_map Z.of_int (NilZero.int_of_string (to_string n)) = Some n.
Proof.
  split; [|split; [|apply to_string_decimal]].
  - intros s p w' Hs Hc ops. unfold construct in Hc.
    destruct (run_ops ops (p, w')) as [p1 w1] eqn:Hr.
    destruct (constructed_then_ops _ _ _ _ _ Hc Hr) as (-> & _ & _ & Hn & _).
    unfold_monad. rewrite Hn. destruct s; [congruence|reflexivity].
  - intros p w' Hc ops. unfold construct, default_name in Hc.
    destruct (run_ops ops (p, w')) as [p1 w1] eqn:Hr.
    destruct (constructed_then_ops _ _ _ _ _ Hc Hr) as (-> & _ & _ & Hn & _).
    unfold_monad. rewrite Hn. reflexivity.
Qed.

(** C10. Constructing with an explicitly empty label is the same
    construction as supplying no label; the handle's label is then
    ["Pin"] followed by the pin number, and is not the empty string. *)
Theorem empty_label_is_default n dir w :
  construct n dir (Some ""%string) w = construct n dir None w /\
  forall p w',
    construct n dir (Some ""%string) w = (Returned p, w') ->
    name_ p = ("Pin" ++ to_string n)%string /\
    name_ p <> ""%string /\
    getName (p, w') = (Returned ("Pin" ++ to_string n)%string, (p, w')).
Proof.
  split; [reflexivity|].
  intros p w' Hc. unfold construct in Hc.
  destruct (DigitalPin_ctor_returned _ _ _ _ Hc)
    as (c & h1 & l & h2 & h3 & _ & _ & _ & _ & _ & -> & _).
  cbn. repeat split; discriminate.
Qed.

End PinFacts.

Section DriverFacts.

Context {G : Gpiod}.

Ltac unfold_driver :=
  unfold session, finish, after_catch, handler, epilogue, cerr, cout,
    leave_scope, set_unread, console, bind, ret in *;
  cbn [fst snd exit_code left_unread final unread world outputPin inputPin]
    in *.

(** One iteration that returns with [running] still true hands the rest
    of the input to the next iteration. *)
Lemma command_loop_step c rest d d1 :
  isspace c = false ->
  process_command c (taken rest d) = (Returned true, d1) ->
  command_loop (String c rest) d = command_loop rest d1.
Proof.
  intros Hs Hp. cbn [command_loop]. unfold bind, set_unread.
  rewrite Hs. fold (taken rest d). rewrite Hp. reflexivity.
Qed.

(** With the handles [main] constructs (the output pin an Output handle,
    the input pin an Input handle, both mutexes free) no command throws. *)
Lemma commands_do_not_throw c d :
  direction_ (outputPin d) = Output -> mutex_ (outputPin d) = Unlocked ->
  direction_ (inputPin d) = Input -> mutex_ (inputPin d) = Unlocked ->
  exists running d', process_command c d = (Returned running, d').
Proof.
  intros Hdo Hmo Hdi Hmi.
  assert (Hw : forall v, exists s, write v (outputPin d, world d) = (Returned tt, s)).
  { intros v. rewrite write_unlocked by assumption. rewrite Hdo. cbv zeta.
    destruct (gpiod_line_set_value _ _ _). eexists; reflexivity. }
  assert (Hr : forall w, exists b s, read (inputPin d, w) = (Returned b, s)).
  { intros w. rewrite read_unlocked by assumption. rewrite Hdi.
    do 2 eexists; reflexivity. }
  destruct c as [[] [] [] [] [] [] [] []];
    unfold process_command, on_outputPin, on_inputPin, console, cout, bind, ret;
    cbn [fst snd world outputPin inputPin];
    try (do 2 eexists; reflexivity).
  - destruct (Hw true) as ([p1 w1] & ->). do 2 eexists; reflexivity.
  - match goal with
    | |- context [read (inputPin d, ?w)] =>
        destruct (Hr w) as (b & [p1 w1] & ->)
    end.
    do 2 eexists; reflexivity.
  - destruct (Hw false) as ([p1 w1] & ->). do 2 eexists; reflexivity.
Qed.

Lemma keeps_unread_bind {A B} (m : M Driver A) (k : A -> M Driver B) :
  keeps_unread m -> (forall a, keeps_unread (k a)) -> keeps_unread (bind m k).
Proof.
  intros Hm Hk d. unfold bind. specialize (Hm d).
  destruct (m d) as [[a|e|] d1]; cbn in *; [|assumption..].
  rewrite (Hk a d1). assumption.
Qed.

Lemma keeps_unread_ret {A} (a : A) : keeps_unread (ret a).
Proof. intros d. reflexivity. Qed.

Lemma keeps_unread_console {A} (m : M World A) : keeps_unread (console m).
Proof. intros d. unfold console. destruct (m (world d)). reflexivity. Qed.

Lemma keeps_unread_on_outputPin {A} (m : Method A) :
  keeps_unread (on_outputPin m).
Proof.
  intros d. unfold on_outputPin.
  destruct (m (outputPin d, world d)) as [r [p w]]. reflexivity.
Qed.

Lemma keeps_unread_on_inputPin {A} (m : Method A) :
  keeps_unread (on_inputPin m).
Proof.
  intros d. unfold on_inputPin.
  destruct (m (inputPin d, world d)) as [r [p w]]. reflexivity.
Qed.

(** No command touches the input stream. *)
Lemma process_command_unread c : keeps_unread (process_command c).
Proof.
  destruct c as [[] [] [] [] [] [] [] []]; unfold process_command;
    repeat first
      [ apply keeps_unread_ret
      | apply keeps_unread_console
      | apply keeps_unread_on_outputPin
      | apply keeps_unread_on_inputPin
      | apply keeps_unread_bind; [|intros ?] ].
Qed.

(** Where the handler stands.  The [try] block encloses the whole loop:
    were the command just taken from the input to throw, the exception
    would leave the loop, [inputPin] and [outputPin] would be destroyed,
    the handler would write ["Error: "], the message and a newline to
    [std::cerr], the exit line would follow and [main] would return 0
    with the rest of the input unread.  With the handles [main]
    constructs no command throws ([commands_do_not_throw]), so [main]
    itself never takes this path from the loop. *)
Lemma exception_leaves_loop d c rest e d' :
  unread d = String c rest ->
  isspace c = false ->
  process_command c (taken rest d) = (Thrown e, d') ->
  session d =
    {| exit_code := Some 0;
       left_unread := rest;
       final :=
         {| hw := hw (leave_scope d');
            trace := trace (leave_scope d')
                       ++ [EvCerr "Error: "; EvCerr (what e); EvCerr endl;
                           EvCout "Exiting DigitalPin Driver Application.";
                           EvCout endl] |} |}.
Proof.
  intros Hu Hs Hp. unfold session. rewrite Hu. cbn [command_loop].
  unfold bind at 1. unfold set_unread. rewrite Hs. fold (taken rest d).
  unfold bind at 1. rewrite Hp.
  pose proof (process_command_unread c (taken rest d)) as Hk.
  rewrite Hp in Hk. cbn [snd taken unread] in Hk.
  unfold_driver. rewrite Hk. f_equal. close_trace.
Qed.

End DriverFacts.

Section ThreadFacts.

Context {G : Gpiod}.

Lemma lookup_set_nth {A} (l : list A) : forall t x0 x i,
  nth_error l t = Some x0 ->
  nth_error (set_nth t x l) i = if Nat.eqb i t then Some x else nth_error l i.
Proof.
  induction l as [|y l IH]; intros t x0 x i Ht.
  - destruct t; discriminate.
  - destruct t as [|t]; destruct i as [|i]; cbn in *; try reflexivity.
    eapply IH; eassumption.
Qed.

Lemma acquisitions_app h1 h2 :
  acquisitions (h1 ++ h2) = acquisitions h1 ++ acquisitions h2.
Proof.
  induction h1 as [|[t []] h1 IH]; cbn; rewrite ?IH; reflexivity.
Qed.

Lemma executions_app h1 h2 :
  executions (h1 ++ h2) = executions h1 ++ executions h2.
Proof.
  induction h1 as [|[t []] h1 IH]; cbn; rewrite ?IH; reflexivity.
Qed.

Lemma scan_app tr1 : forall m tr2,
  scan m (tr1 ++ tr2) =
  match scan m tr1 with Some m' => scan m' tr2 | None => None end.
Proof.
  induction tr1 as [|ev tr1 IH]; intros m tr2; [reflexivity|].
  destruct ev, m; cbn; auto.
Qed.

(** A body leaves the object as it is and adds one event to the trace:
    the provider call it makes, or the throw. *)
Lemma body_of_effect c p w :
  exists r w' ev,
    body_of c (p, w) = (r, (p, w')) /\
    trace w' = trace w ++ [ev] /\
    scan Locked [ev] = Some Locked.
Proof.
  destruct c as [|v]; unfold body_of; unfold_monad;
    destruct (direction_ p); cbn.
  - do 3 eexists. split; [reflexivity|]. split; reflexivity.
  - do 3 eexists. split; [reflexivity|]. split; reflexivity.
  - do 3 eexists. split; [reflexivity|]. split; reflexivity.
  - destruct (gpiod_line_set_value (line_ p) (if v then 1 else 0) (hw w))
      as [rc h].
    do 3 eexists. split; [reflexivity|]. split; reflexivity.
Qed.

(** A call is its three steps: a lone thread that takes them leaves the
    object and the world as the member function does. *)
Lemma read_is_three_steps p w :
  mutex_ p = Unlocked ->
  let st := run [0; 0; 0]%nat
              {| object := p; env := w;
                 threads := [mkThread (Entering CallRead) [] []];
                 history := [] |} in
  (object st, env st) = snd (read (p, w)).
Proof.
  destruct p as [n d nm c l m]; cbn [mutex_]; intros ->.
  destruct d; reflexivity.
Qed.

Lemma write_is_three_steps v p w :
  mutex_ p = Unlocked ->
  let st := run [0; 0; 0]%nat
              {| object := p; env := w;
                 threads := [mkThread (Entering (CallWrite v)) [] []];
                 history := [] |} in
  (object st, env st) = snd (write v (p, w)).
Proof.
  destruct p as [n d nm c l m]; cbn [mutex_]; intros ->.
  destruct d; [reflexivity|]. destruct w as [h0 tr].
  cbv [run step nth_error threads pc object env set_nth body_of write
       lock_guard write_body bind ret get_this on_world call_line_set_value
       fst snd mutex_ direction_ line_ set_mutex negb Direction_eqb log
       Object_Traced World_Traced hw trace todo results pinNumber_ name_ chip_].
  destruct (gpiod_line_set_value l (if v then 1 else 0) h0) as [rc h].
  reflexivity.
Qed.

Lemma in_cs_holding th c : pc th = Holding c -> in_cs th = true.
Proof. unfold in_cs. intros ->. reflexivity. Qed.

Lemma in_cs_leaving th c r : pc th = Leaving c r -> in_cs th = true.
Proof. unfold in_cs. intros ->. reflexivity. Qed.

Ltac lookup_thread Ht H :=
  rewrite (lookup_set_nth _ _ _ _ Ht) in H;
  let E := fresh "E" in
  match type of H with
  | (if Nat.eqb ?i ?t then _ else _) = _ =>
      destruct (Nat.eqb_spec i t) as [E|E];
      [ injection H as <-; try subst i | ]
  end.

Ltac history_step :=
  rewrite ?acquisitions_app, ?executions_app;
  cbn [acquisitions executions]; rewrite ?app_nil_r.

(** Every step keeps the invariant. *)
Lemma step_preserves base t st st' :
  serial_inv base st -> step t st = Some st' -> serial_inv base st'.
Proof.
  intros [Hex Hho (delta & Htr & Hsc) Hoh Hoi]. unfold step.
  destruct (nth_error (threads st) t) as [th|] eqn:Ht; [|discriminate].
  destruct (pc th) as [|c|c|c r] eqn:Hpc.
  - (* the call begins *)
    destruct (todo th) as [|c cs]; [discriminate|].
    intros H; injection H as <-.
    constructor; cbn [threads object env history].
    + intros i j thi thj Hi Hj Ci Cj.
      lookup_thread Ht Hi; [discriminate Ci|].
      lookup_thread Ht Hj; [discriminate Cj|].
      eauto.
    + intros i thi Hi Ci.
      lookup_thread Ht Hi; [discriminate Ci|]. eauto.
    + exists delta; auto.
    + intros i thi c' Hi Hp. history_step.
      lookup_thread Ht Hi; [discriminate Hp|]. eauto.
    + intros Hall. history_step. apply Hoi.
      intros i thi c' Hi Hp.
      destruct (Nat.eq_dec i t) as [->|Hne].
      * rewrite Ht in Hi. injection Hi as <-. congruence.
      * apply (Hall i thi c'); [|assumption].
        rewrite (lookup_set_nth _ _ _ _ Ht).
        destruct (Nat.eqb_spec i t); [contradiction|assumption].
  - (* the guard takes the mutex *)
    destruct (mutex_ (object st)) eqn:Hmu; [|discriminate].
    assert (Hfree : forall i thi, nth_error (threads st) i = Some thi ->
                                  in_cs thi = false).
    { intros i thi Hi. destruct (in_cs thi) eqn:Ci; [|reflexivity].
      specialize (Hho i thi Hi Ci). congruence. }
    intros H; injection H as <-.
    constructor; cbn [threads object env history].
    + intros i j thi thj Hi Hj Ci Cj.
      lookup_thread Ht Hi; lookup_thread Ht Hj; try congruence.
      * rewrite (Hfree _ _ Hj) in Cj. discriminate.
      * rewrite (Hfree _ _ Hi) in Ci. discriminate.
      * rewrite (Hfree _ _ Hi) in Ci. discriminate.
    + intros. reflexivity.
    + exists (delta ++ [EvMutexLock]). split.
      * cbn. rewrite Htr, app_assoc. reflexivity.
      * rewrite scan_app, Hsc. reflexivity.
    + intros i thi c' Hi Hp. history_step.
      lookup_thread Ht Hi.
      * cbn in Hp. injection Hp as ->. f_equal. apply Hoi.
        intros j thj c'' Hj Hq.
        pose proof (in_cs_holding _ Hq) as Cj.
        rewrite (Hfree _ _ Hj) in Cj. discriminate.
      * pose proof (in_cs_holding _ Hp) as Ci.
        rewrite (Hfree _ _ Hi) in Ci. discriminate.
    + intros Hall. exfalso.
      apply (Hall t (mkThread (Holding c) (todo th) (results th)) c);
        [|reflexivity].
      rewrite (lookup_set_nth _ _ _ _ Ht), Nat.eqb_refl. reflexivity.
  - (* the body runs *)
    pose proof (in_cs_holding _ Hpc) as Ct.
    pose proof (Hho _ _ Ht Ct) as Hmu.
    destruct (body_of_effect c (object st) (env st))
      as (r & w' & ev & Hb & Hev & Hscan).
    rewrite Hb. intros H; injection H as <-.
    constructor; cbn [threads object env history].
    + intros i j thi thj Hi Hj Ci Cj.
      lookup_thread Ht Hi; lookup_thread Ht Hj; try congruence; eauto.
    + intros. assumption.
    + exists (delta ++ [ev]). split.
      * rewrite Hev, Htr, app_assoc. reflexivity.
      * rewrite scan_app, Hsc, Hmu. assumption.
    + intros i thi c' Hi Hp. exfalso.
      lookup_thread Ht Hi; [discriminate Hp|].
      apply E. eapply Hex; eauto using in_cs_holding.
    + intros _. history_step. eauto.
  - (* the guard gives the mutex back *)
    pose proof (in_cs_leaving _ Hpc) as Ct.
    pose proof (Hho _ _ Ht Ct) as Hmu.
    assert (Halone : forall i thi, nth_error (threads st) i = Some thi ->
                                   in_cs thi = true -> i = t)
      by (intros; eapply Hex; eauto).
    intros H; injection H as <-.
    constructor; cbn [threads object env history].
    + intros i j thi thj Hi Hj Ci Cj.
      lookup_thread Ht Hi; [discriminate Ci|].
      lookup_thread Ht Hj; [discriminate Cj|].
      eauto.
    + intros i thi Hi Ci. exfalso.
      lookup_thread Ht Hi; [discriminate Ci|]. eauto.
    + exists (delta ++ [EvMutexUnlock]). split.
      * cbn. rewrite Htr, app_assoc. reflexivity.
      * rewrite scan_app, Hsc, Hmu. reflexivity.
    + intros i thi c' Hi Hp. exfalso.
      lookup_thread Ht Hi; [discriminate Hp|].
      eauto using in_cs_holding.
    + intros _. history_step. apply Hoi.
      intros i thi c' Hi Hp.
      pose proof (Halone _ _ Hi (in_cs_holding _ Hp)) as ->.
      congruence.
Qed.

Lemma run_preserves base sched : forall st,
  serial_inv base st -> serial_inv base (run sched st).
Proof.
  induction sched as [|t sched IH]; intros st Hinv; [assumption|].
  cbn [run]. apply IH.
  destruct (step t st) as [st'|] eqn:Hs; [|assumption].
  eapply step_preserves; eassumption.
Qed.

(** Threads that have not begun any call, on a handle whose mutex is
    free. *)
Lemma spawn_inv p w work :
  mutex_ p = Unlocked -> serial_inv (trace w) (spawn p w work).
Proof.
  intros Hm.
  assert (Hidle : forall i thi,
             nth_error (threads (spawn p w work)) i = Some thi ->
             pc thi = Idle).
  { intros i thi Hi. cbn in Hi. apply nth_error_In in Hi.
    apply in_map_iff in Hi. destruct Hi as (cs & <- & _). reflexivity. }
  constructor.
  - intros i j thi thj Hi _ Ci _. apply Hidle in Hi.
    unfold in_cs in Ci. rewrite Hi in Ci. discriminate.
  - intros i thi Hi Ci. apply Hidle in Hi.
    unfold in_cs in Ci. rewrite Hi in Ci. discriminate.
  - exists []. cbn. rewrite app_nil_r, Hm. auto.
  - intros i thi c Hi Hp. apply Hidle in Hi. congruence.
  - reflexivity.
Qed.

End ThreadFacts.

(** * Further properties of the class *)

Lemma held_chips_from_app tr1 : forall acc tr2,
  held_chips_from acc (tr1 ++ tr2)
  = held_chips_from (held_chips_from acc tr1) tr2.
Proof.
  induction tr1 as [|ev tr1 IH]; intros acc tr2; [reflexivity|].
  destruct ev; cbn [app held_chips_from]; apply IH.
Qed.

Lemma held_lines_from_app tr1 : forall acc tr2,
  held_lines_from acc (tr1 ++ tr2)
  = held_lines_from (held_lines_from acc tr1) tr2.
Proof.
  induction tr1 as [|ev tr1 IH]; intros acc tr2; [reflexivity|].
  destruct ev; cbn [app held_lines_from]; apply IH.
Qed.

Lemma held_chips_from_quiet tr : forall acc,
  existsb is_lifecycle tr = false -> held_chips_from acc tr = acc.
Proof.
  induction tr as [|ev tr IH]; intros acc H; [reflexivity|].
  cbn [existsb] in H. apply orb_false_iff in H. destruct H as [He Ht].
  destruct ev; cbn in He; try discriminate; cbn [held_chips_from]; auto.
Qed.

Lemma held_lines_from_quiet tr : forall acc,
  existsb is_lifecycle tr = false -> held_lines_from acc tr = acc.
Proof.
  induction tr as [|ev tr IH]; intros acc H; [reflexivity|].
  cbn [existsb] in H. apply orb_false_iff in H. destruct H as [He Ht].
  destruct ev; cbn in He; try discriminate; cbn [held_lines_from]; auto.
Qed.

Lemma existsb_lifecycle_app tr1 tr2 :
  existsb is_lifecycle tr1 = false -> existsb is_lifecycle tr2 = false ->
  existsb is_lifecycle (tr1 ++ tr2) = false.
Proof. intros H1 H2. rewrite existsb_app, H1, H2. reflexivity. Qed.

Section PinMore.

Context {G : Gpiod}.

(** Calls on a handle add no acquisition and no release to the trace. *)
Lemma apply_op_trace o p w :
  mutex_ p = Unlocked ->
  exists used,
    trace (snd (apply_op o (p, w))) = trace w ++ used /\
    existsb is_lifecycle used = false.
Proof.
  intros Hm. destruct o; unfold apply_op.
  - rewrite read_unlocked by assumption.
    destruct (direction_ p); eexists; split; reflexivity.
  - rewrite write_unlocked by assumption.
    destruct (direction_ p); [eexists; split; reflexivity|].
    cbv zeta. destruct (gpiod_line_set_value _ _ _).
    eexists; split; reflexivity.
  - exists []. cbn. rewrite app_nil_r. auto.
Qed.

Lemma run_ops_trace ops : forall p w,
  mutex_ p = Unlocked ->
  exists used,
    trace (snd (run_ops ops (p, w))) = trace w ++ used /\
    existsb is_lifecycle used = false.
Proof.
  induction ops as [|o ops IH]; intros p w Hm.
  - exists []. cbn. rewrite app_nil_r. auto.
  - unfold run_ops in *. cbn [fold_left].
    pose proof (apply_op_object o p w Hm) as Ho.
    destruct (apply_op_trace o p w Hm) as (u1 & Hu1 & Hq1).
    destruct (apply_op o (p, w)) as [p1 w1]. cbn in Ho, Hu1. subst p1.
    destruct (IH p w1 Hm) as (u2 & Hu2 & Hq2).
    exists (u1 ++ u2). split.
    + rewrite Hu2, Hu1, app_assoc. reflexivity.
    + apply existsb_lifecycle_app; assumption.
Qed.

(** X1. A handle constructed with direction Output, after any calls made
    on it (failed reads included): [write] returns normally whatever
    libgpiod's return code is.  Its one provider call sets the line to 1
    for [true] and to 0 for [false]; the object is unchanged. *)
Theorem write_on_output_sets_value n name w p w' ops p1 w1 (value : bool) :
  DigitalPin_ctor n Output name w = (Returned p, w') ->
  run_ops ops (p, w') = (p1, w1) ->
  let v := if value then 1 else 0 in
  let rc := fst (gpiod_line_set_value (line_ p1) v (hw w1)) in
  write value (p1, w1) =
    (Returned tt,
     (p1, {| hw := snd (gpiod_line_set_value (line_ p1) v (hw w1));
             trace := trace w1 ++ [EvMutexLock; EvSetValue (line_ p1) v rc;
                                   EvMutexUnlock] |})).
Proof.
  intros Hc Hr v rc.
  destruct (constructed_then_ops _ _ _ _ _ Hc Hr) as (-> & Hd & Hm & _).
  rewrite write_unlocked by assumption. rewrite Hd. cbv zeta.
  subst rc v. destruct (gpiod_line_set_value _ _ _). reflexivity.
Qed.

(** X2. When the controller cannot be opened the constructor throws with
    the text of [errno] as left by the failed open; it makes no other
    provider call (no line lookup, no close of the null handle). *)
Theorem open_failure_makes_no_other_call n dir name w h1 :
  gpiod_chip_open_by_number 0 (hw w) = (NULL, h1) ->
  DigitalPin_ctor n dir name w =
    (Thrown (runtime_error ("Failed to open GPIO chip: " ++ strerror_errno h1)%string),
     {| hw := h1;
        trace := trace w
                   ++ [EvChipOpen 0 NULL;
                       EvThrow (runtime_error
                                  ("Failed to open GPIO chip: "
                                     ++ strerror_errno h1)%string)] |}).
Proof.
  intros Ho. unfold DigitalPin_ctor. unfold_monad. rewrite Ho.
  cbn. rewrite <- app_assoc. reflexivity.
Qed.

(** X3. Construction, any calls, destruction: the trace is the three
    acquisitions (open controller 0, look the line up at the pin number
    taken as unsigned, request it for the direction), then events that
    acquire and release nothing, then the line release followed by the
    controller close.  Over the whole life of the handle no controller
    stays open and no line stays reserved. *)
Theorem lifecycle_is_balanced n dir name w p w' ops :
  DigitalPin_ctor n dir name w = (Returned p, w') ->
  exists used,
    trace (snd (snd (DigitalPin_dtor (run_ops ops (p, w'))))) =
      trace w
        ++ [EvChipOpen 0 (chip_ p);
            EvGetLine (chip_ p) (to_unsigned n) (line_ p);
            EvLineRequest (line_ p) (config_for dir) 0 0]
        ++ used
        ++ [EvLineRelease (line_ p); EvChipClose (chip_ p)] /\
    existsb is_lifecycle used = false /\
    held_chips ([EvChipOpen 0 (chip_ p);
                 EvGetLine (chip_ p) (to_unsigned n) (line_ p);
                 EvLineRequest (line_ p) (config_for dir) 0 0]
                  ++ used
                  ++ [EvLineRelease (line_ p); EvChipClose (chip_ p)]) = [] /\
    held_lines ([EvChipOpen 0 (chip_ p);
                 EvGetLine (chip_ p) (to_unsigned n) (line_ p);
                 EvLineRequest (line_ p) (config_for dir) 0 0]
                  ++ used
                  ++ [EvLineRelease (line_ p); EvChipClose (chip_ p)]) = [].
Proof.
  intros Hc.
  destruct (DigitalPin_ctor_returned _ _ _ _ Hc)
    as (c & h1 & l & h2 & h3 & _ & Hcn & _ & Hln & _ & Hp & Hw).
  assert (Hm : mutex_ p = Unlocked) by (subst p; reflexivity).
  destruct (run_ops_trace ops p w' Hm) as (used & Hu & Hq).
  pose proof (run_ops_object ops p w' Hm) as Ho.
  destruct (run_ops ops (p, w')) as [p1 w1]. cbn in Ho, Hu. subst p1.
  exists used.
  assert (Hcp : chip_ p = c) by (subst p; reflexivity).
  assert (Hlp : line_ p = l) by (subst p; reflexivity).
  rewrite Hcp, Hlp.
  apply Z.eqb_neq in Hcn, Hln.
  split; [|split; [assumption|split]].
  - unfold_monad. rewrite Hcp, Hlp, Hcn, Hln. cbn.
    rewrite Hu, Hw. cbn [trace]. rewrite <- !app_assoc. reflexivity.
  - unfold held_chips. cbn [app held_chips_from]. rewrite Hcn.
    rewrite held_chips_from_app, (held_chips_from_quiet _ _ Hq).
    cbn [held_chips_from remove_ptr]. rewrite Z.eqb_refl. reflexivity.
  - unfold held_lines. cbn [app held_lines_from Z.eqb].
    rewrite held_lines_from_app, (held_lines_from_quiet _ _ Hq).
    cbn [held_lines_from remove_ptr]. rewrite Z.eqb_refl. reflexivity.
Qed.

(** X4. The label plays no part in the acquisition: two constructions
    that differ only in the label make the same provider calls with the
    same results, leave the same world, and end the same way (the same
    handles on success, the same exception on failure).  Whatever the
    label, a line request the constructor makes names the consumer
    ["DigitalPin"], with no flags, default value 0 and the request type of
    the direction. *)
Theorem label_never_reaches_provider n dir name1 name2 w :
  snd (DigitalPin_ctor n dir name1 w) = snd (DigitalPin_ctor n dir name2 w) /\
  match fst (DigitalPin_ctor n dir name1 w),
        fst (DigitalPin_ctor n dir name2 w) with
  | Returned p1, Returned p2 =>
      chip_ p1 = chip_ p2 /\ line_ p1 = line_ p2 /\
      direction_ p1 = direction_ p2 /\ pinNumber_ p1 = pinNumber_ p2
  | Thrown e1, Thrown e2 => e1 = e2
  | _, _ => False
  end /\
  exists delta,
    trace (snd (DigitalPin_ctor n dir name1 w)) = trace w ++ delta /\
    forall l cfg dv rc,
      In (EvLineRequest l cfg dv rc) delta ->
      consumer cfg = "DigitalPin"%string /\ flags cfg = 0 /\ dv = 0 /\
      request_type cfg =
        match dir with
        | Input => GPIOD_LINE_REQUEST_DIRECTION_INPUT
        | Output => GPIOD_LINE_REQUEST_DIRECTION_OUTPUT
        end.
Proof.
  unfold DigitalPin_ctor. unfold_monad.
  destruct (gpiod_chip_open_by_number 0 (hw w)) as [c h1].
  destruct (c =? NULL); cbn [fst snd hw trace].
  { split; [reflexivity|]. split; [reflexivity|].
    eexists. split; [rewrite <- !app_assoc; reflexivity|].
    intros l cfg dv rc Hin. cbn in Hin.
    destruct Hin as [H|[H|[]]]; discriminate H. }
  destruct (gpiod_chip_get_line c (to_unsigned n) h1) as [l0 h2].
  destruct (l0 =? NULL); cbn [fst snd hw trace].
  { split; [reflexivity|]. split; [reflexivity|].
    eexists. split; [rewrite <- !app_assoc; reflexivity|].
    intros l cfg dv rc Hin. cbn in Hin.
    destruct Hin as [H|[H|[H|[H|[]]]]]; discriminate H. }
  destruct (gpiod_line_request l0 (config_for dir) 0 h2) as [rc0 h3].
  destruct (rc0 =? 0); cbn [negb fst snd hw trace].
  - split; [reflexivity|]. split; [cbn; auto|].
    eexists. split; [rewrite <- !app_assoc; reflexivity|].
    intros l cfg dv rc Hin. cbn in Hin.
    destruct Hin as [H|[H|[H|[]]]]; try discriminate H.
    injection H as <- <- <- <-. destruct dir; cbn; auto.
  - split; [reflexivity|]. split; [reflexivity|].
    eexists. split; [rewrite <- !app_assoc; reflexivity|].
    intros l cfg dv rc Hin. cbn in Hin.
    destruct Hin as [H|[H|[H|[H|[H|[]]]]]]; try discriminate H.
    injection H as <- <- <- <-. destruct dir; cbn; auto.
Qed.

(** X5. A negative pin number is not rejected by the class: it reaches
    the line lookup converted to unsigned, as the offset [n + 2^32], which
    is at least [2^31]. *)
Theorem negative_pin_wraps n dir name w c h1 :
  - 2 ^ 31 <= n < 0 ->
  gpiod_chip_open_by_number 0 (hw w) = (c, h1) ->
  c <> NULL ->
  exists l,
    In (EvGetLine c (n + 2 ^ 32) l)
       (trace (snd (DigitalPin_ctor n dir name w))) /\
    2 ^ 31 <= n + 2 ^ 32 < 2 ^ 32.
Proof.
  intros Hn Ho Hc.
  assert (Hu : to_unsigned n = n + 2 ^ 32).
  { unfold to_unsigned. symmetry. apply Z.mod_unique with (q := -1); lia. }
  unfold DigitalPin_ctor. unfold_monad. rewrite Ho.
  apply Z.eqb_neq in Hc. rewrite Hc. cbn [hw trace]. rewrite Hu.
  destruct (gpiod_chip_get_line c (n + 2 ^ 32) h1) as [l h2].
  exists l. split; [|lia].
  destruct (l =? NULL); cbn [fst snd hw trace].
  - rewrite !in_app_iff. cbn. tauto.
  - destruct (gpiod_line_request l (config_for dir) 0 h2) as [rc h3].
    destruct (rc =? 0); cbn [negb fst snd hw trace];
      rewrite !in_app_iff; cbn; tauto.
Qed.

(** X6. Generated default labels are distinct for distinct pin numbers:
    two handles constructed without a label that carry the same label
    were constructed for the same pin number. *)
Theorem default_labels_distinct n m dir1 dir2 w1 w2 p q w1' w2' :
  construct n dir1 None w1 = (Returned p, w1') ->
  construct m dir2 None w2 = (Returned q, w2') ->
  name_ p = name_ q -> n = m.
Proof.
  unfold construct, default_name. intros Hp Hq Heq.
  destruct (DigitalPin_ctor_returned _ _ _ _ Hp)
    as (? & ? & ? & ? & ? & _ & _ & _ & _ & _ & -> & _).
  destruct (DigitalPin_ctor_returned _ _ _ _ Hq)
    as (? & ? & ? & ? & ? & _ & _ & _ & _ & _ & -> & _).
  cbn in Heq. injection Heq as Heq.
  pose proof (to_string_decimal n) as Hn.
  pose proof (to_string_decimal m) as Hm'.
  rewrite Heq in Hn. congruence.
Qed.

End PinMore.

(** * Further properties of the driver *)

Section DriverMore.

Context {G : Gpiod}.

Lemma destroy_effect p w :
  destroy p w = {| hw := dtor_hw p (hw w); trace := trace w ++ dtor_events p |}.
Proof.
  unfold destroy, dtor_hw, dtor_events. unfold_monad.
  destruct (line_ p =? NULL), (chip_ p =? NULL); cbn;
    rewrite <- ?app_assoc, ?app_nil_r; destruct w; reflexivity.
Qed.

(** A command that returns with [running] true hands the session on. *)
Lemma session_step d c rest d1 :
  unread d = String c rest ->
  isspace c = false ->
  process_command c (taken rest d) = (Returned true, d1) ->
  session d = session d1.
Proof.
  intros Hu Hs Hp.
  pose proof (process_command_unread c (taken rest d)) as Hk.
  rewrite Hp in Hk. cbn [snd taken unread] in Hk.
  unfold session. rewrite Hu, Hk.
  erewrite command_loop_step by eassumption. reflexivity.
Qed.

Lemma process_led (on : bool) d :
  direction_ (outputPin d) = Output -> mutex_ (outputPin d) = Unlocked ->
  let v := if on then 1 else 0 in
  let line := line_ (outputPin d) in
  process_command (if on then "1" else "0")%char d =
    (Returned true,
     {| outputPin := outputPin d; inputPin := inputPin d; unread := unread d;
        world :=
          {| hw := snd (gpiod_line_set_value line v (hw (world d)));
             trace :=
               trace (world d)
                 ++ [EvMutexLock;
                     EvSetValue line v
                       (fst (gpiod_line_set_value line v (hw (world d))));
                     EvMutexUnlock;
                     EvCout (if on then "LED turned ON." else "LED turned OFF.");
                     EvCout endl] |} |}).
Proof.
  intros Hd Hm v line. subst v line.
  destruct on; unfold process_command, on_outputPin, console, cout, bind, ret;
    rewrite write_unlocked by assumption; rewrite Hd; cbv zeta;
    destruct (gpiod_line_set_value _ _ _) as [rc h];
    cbn [fst snd world outputPin inputPin unread];
    f_equal; f_equal; close_trace.
Qed.

Lemma process_button d :
  direction_ (inputPin d) = Input -> mutex_ (inputPin d) = Unlocked ->
  let raw := gpiod_line_get_value (line_ (inputPin d)) (hw (world d)) in
  process_command "r"%char d =
    (Returned true,
     {| outputPin := outputPin d; inputPin := inputPin d; unread := unread d;
        world :=
          {| hw := hw (world d);
             trace :=
               trace (world d)
                 ++ [EvCout "Button state: "; EvMutexLock;
                     EvGetValue (line_ (inputPin d)) raw; EvMutexUnlock;
                     EvCout (if 0 <? raw then "Pressed" else "Not pressed");
                     EvCout endl] |} |}).
Proof.
  intros Hd Hm raw. subst raw.
  unfold process_command, on_inputPin, console, cout, bind, ret.
  cbn [fst snd world outputPin inputPin unread].
  rewrite read_unlocked by assumption. rewrite Hd. cbv zeta.
  cbn [fst snd world outputPin inputPin unread hw trace log World_Traced].
  f_equal. f_equal. unfold log, World_Traced. cbn [hw trace].
  f_equal. rewrite <- !app_assoc. reflexivity.
Qed.

Lemma process_unknown c d :
  c <> "1"%char -> c <> "0"%char -> c <> "r"%char -> c <> "q"%char ->
  process_command c d =
    (Returned true,
     {| outputPin := outputPin d; inputPin := inputPin d; unread := unread d;
        world :=
          {| hw := hw (world d);
             trace := trace (world d)
                        ++ [EvCout "Invalid command."; EvCout endl] |} |}).
Proof.
  intros H1 H0 Hr Hq.
  destruct c as [[] [] [] [] [] [] [] []];
    try congruence;
    unfold process_command, console, cout, bind, ret;
    cbn [fst snd world outputPin inputPin unread];
    f_equal; f_equal; close_trace.
Qed.

(** X7. The command [q] ends the session: [inputPin] is destroyed, then
    [outputPin] (each one its line release, then its controller close),
    the exit line is written and [main] returns 0; the input after [q]
    stays unread. *)
Theorem quit_ends_session d rest :
  unread d = String "q"%char rest ->
  session d =
    {| exit_code := Some 0;
       left_unread := rest;
       final :=
         {| hw := dtor_hw (outputPin d) (dtor_hw (inputPin d) (hw (world d)));
            trace := trace (world d)
                       ++ dtor_events (inputPin d)
                       ++ dtor_events (outputPin d)
                       ++ [EvCout "Exiting DigitalPin Driver Application.";
                           EvCout endl] |} |}.
Proof.
  intros Hu. unfold session. rewrite Hu.
  cbn [command_loop]. unfold bind, set_unread, ret.
  change (isspace "q"%char) with false. cbn [process_command].
  unfold ret. cbn iota beta.
  unfold finish, epilogue, leave_scope, cout, bind, ret.
  cbn [fst snd unread world outputPin inputPin exit_code].
  rewrite !destroy_effect. cbn [hw trace].
  f_equal. unfold log, World_Traced. cbn [hw trace].
  f_equal. rewrite <- !app_assoc. reflexivity.
Qed.

(** X8. Whitespace in the input is skipped: a session whose next
    character is a blank, a tab or a line break is the session on the
    input after it. *)
Theorem whitespace_is_skipped d c rest :
  unread d = String c rest ->
  isspace c = true ->
  session d = session (taken rest d).
Proof.
  intros Hu Hs. unfold session. rewrite Hu. cbn [command_loop taken unread].
  unfold bind at 1. unfold set_unread at 1. rewrite Hs.
  fold (taken rest d).
  destruct rest as [|c' rest']; [reflexivity|].
  cbn [command_loop]. unfold bind at 1 3. unfold set_unread. reflexivity.
Qed.

(** X9. A character that is none of [1], [0], [r], [q] and is not
    whitespace is answered with ["Invalid command."] and the session goes
    on with the next one; the pins and the provider are not touched. *)
Theorem unknown_command_is_reported d c rest :
  unread d = String c rest ->
  isspace c = false ->
  c <> "1"%char -> c <> "0"%char -> c <> "r"%char -> c <> "q"%char ->
  session d =
  session {| outputPin := outputPin d; inputPin := inputPin d; unread := rest;
             world :=
               {| hw := hw (world d);
                  trace := trace (world d)
                             ++ [EvCout "Invalid command."; EvCout endl] |} |}.
Proof.
  intros Hu Hs H1 H0 Hr Hq.
  apply (session_step d Hu Hs).
  rewrite process_unknown by assumption. reflexivity.
Qed.

(** X10. The commands [1] and [0], with an Output handle in the
    [outputPin] role: the line is set to 1 or 0 under the handle's mutex
    and ["LED turned ON."] or ["LED turned OFF."] is written whatever
    return code libgpiod gave; the session goes on. *)
Theorem led_command_reports_success d (on : bool) rest :
  unread d = String (if on then "1" else "0")%char rest ->
  direction_ (outputPin d) = Output ->
  mutex_ (outputPin d) = Unlocked ->
  let v := if on then 1 else 0 in
  let line := line_ (outputPin d) in
  let rc := fst (gpiod_line_set_value line v (hw (world d))) in
  session d =
  session {| outputPin := outputPin d; inputPin := inputPin d; unread := rest;
             world :=
               {| hw := snd (gpiod_line_set_value line v (hw (world d)));
                  trace :=
                    trace (world d)
                      ++ [EvMutexLock; EvSetValue line v rc; EvMutexUnlock;
                          EvCout (if on then "LED turned ON."
                                  else "LED turned OFF.");
                          EvCout endl] |} |}.
Proof.
  intros Hu Hd Hm v line rc.
  apply (session_step d Hu); [destruct on; reflexivity|].
  rewrite (process_led on (taken rest d)) by assumption. reflexivity.
Qed.

(** X11. The command [r], with an Input handle in the [inputPin] role:
    ["Button state: "] is written, the line is queried under the handle's
    mutex, and the answer is ["Pressed"] when the raw value is greater
    than zero and ["Not pressed"] otherwise, a negative (failed) query
    included; the provider state is unchanged and the session goes on. *)
Theorem button_command_reports_level d rest :
  unread d = String "r"%char rest ->
  direction_ (inputPin d) = Input ->
  mutex_ (inputPin d) = Unlocked ->
  let raw := gpiod_line_get_value (line_ (inputPin d)) (hw (world d)) in
  session d =
  session {| outputPin := outputPin d; inputPin := inputPin d; unread := rest;
             world :=
               {| hw := hw (world d);
                  trace :=
                    trace (world d)
                      ++ [EvCout "Button state: "; EvMutexLock;
                          EvGetValue (line_ (inputPin d)) raw; EvMutexUnlock;
                          EvCout (if 0 <? raw then "Pressed" else "Not pressed");
                          EvCout endl] |} |}.
Proof.
  intros Hu Hd Hm raw.
  apply (session_step d Hu); [reflexivity|].
  rewrite (process_button (taken rest d)) by assumption. reflexivity.
Qed.

Lemma ready_taken rest d : ready d -> ready (taken rest d).
Proof. intros H. exact H. Qed.

(** One command with the handles ready: it returns, leaves the two
    objects as they were, and adds neither a report nor an acquisition or
    release to the trace. *)
Lemma process_ready c d :
  ready d ->
  exists running d' delta,
    process_command c d = (Returned running, d') /\
    outputPin d' = outputPin d /\ inputPin d' = inputPin d /\
    unread d' = unread d /\
    trace (world d') = trace (world d) ++ delta /\
    existsb is_lifecycle delta = false /\
    existsb is_report delta = false.
Proof.
  intros (Hdo & Hmo & Hdi & Hmi).
  destruct (ascii_dec c "1") as [->|H1].
  { pose proof (process_led true d Hdo Hmo) as H. cbv zeta in H.
    do 3 eexists. split; [exact H|]. cbn. repeat split; reflexivity. }
  destruct (ascii_dec c "0") as [->|H0].
  { pose proof (process_led false d Hdo Hmo) as H. cbv zeta in H.
    do 3 eexists. split; [exact H|]. cbn. repeat split; reflexivity. }
  destruct (ascii_dec c "r") as [->|Hr].
  { pose proof (process_button d Hdi Hmi) as H. cbv zeta in H.
    do 3 eexists. split; [exact H|]. cbn. repeat split; reflexivity. }
  destruct (ascii_dec c "q") as [->|Hq].
  { exists false, d, []. cbn. rewrite app_nil_r. repeat split; reflexivity. }
  do 3 eexists. split; [apply process_unknown; assumption|].
  cbn. repeat split; reflexivity.
Qed.

(** The loop with the handles ready, on the input the driver holds: it
    ends by [q] or by running out of input, never by exception. *)
Lemma command_loop_ready cin : forall d,
  ready d ->
  unread d = cin ->
  exists en d' delta,
    command_loop cin d = (Returned en, d') /\
    outputPin d' = outputPin d /\ inputPin d' = inputPin d /\
    trace (world d') = trace (world d) ++ delta /\
    existsb is_lifecycle delta = false /\
    existsb is_report delta = false /\
    (en = Starved -> unread d' = ""%string).
Proof.
  induction cin as [|c rest IH]; intros d Hr Hu.
  - exists Starved, d, []. cbn. rewrite app_nil_r. repeat split; auto.
  - cbn [command_loop]. unfold bind at 1. unfold set_unread.
    fold (taken rest d).
    destruct (isspace c) eqn:Hs.
    + destruct (IH (taken rest d) (ready_taken rest Hr) eq_refl)
        as (en & d' & delta & Hl & Ho & Hi & Ht & Hq1 & Hq2 & Hst).
      cbn [taken outputPin inputPin world unread] in Ho, Hi, Ht.
      exists en, d', delta. repeat split; assumption.
    + destruct (process_ready c (ready_taken rest Hr))
        as (running & d1 & delta1 & Hp & Ho1 & Hi1 & Hu1 & Ht1 & Hq1 & Hr1).
      cbn [taken outputPin inputPin world unread] in Ho1, Hi1, Hu1, Ht1.
      unfold bind. rewrite Hp.
      destruct running.
      * assert (Hr' : ready d1).
        { unfold ready. rewrite Ho1, Hi1. exact Hr. }
        destruct (IH d1 Hr' Hu1)
          as (en & d' & delta & Hl & Ho & Hi & Ht & Hq1' & Hq2' & Hst).
        exists en, d', (delta1 ++ delta). rewrite Hl.
        split; [reflexivity|].
        split; [congruence|]. split; [congruence|].
        split; [rewrite Ht, Ht1, app_assoc; reflexivity|].
        split; [apply existsb_lifecycle_app; assumption|].
        split; [rewrite existsb_app, Hr1, Hq2'; reflexivity|assumption].
      * exists Quit, d1, delta1. unfold ret.
        repeat split; try assumption. discriminate.
Qed.

Lemma dtor_events_quiet p : existsb is_report (dtor_events p) = false.
Proof.
  unfold dtor_events.
  destruct (line_ p =? NULL), (chip_ p =? NULL); reflexivity.
Qed.

(** A session with the handles ready: the shape of its end. *)
Lemma session_ready d :
  ready d ->
  exists loop_events,
    existsb is_lifecycle loop_events = false /\
    existsb is_report loop_events = false /\
    ((exit_code (session d) = Some 0 /\
      trace (final (session d)) =
        trace (world d) ++ loop_events
          ++ dtor_events (inputPin d) ++ dtor_events (outputPin d)
          ++ [EvCout "Exiting DigitalPin Driver Application."; EvCout endl])
     \/
     (exit_code (session d) = None /\
      left_unread (session d) = ""%string /\
      trace (final (session d)) = trace (world d) ++ loop_events)).
Proof.
  intros Hr.
  destruct (command_loop_ready Hr eq_refl)
    as (en & d' & delta & Hl & Ho & Hi & Ht & Hq1 & Hq2 & Hst).
  exists delta. split; [assumption|]. split; [assumption|].
  unfold session. rewrite Hl. destruct en.
  - left. unfold finish, epilogue, leave_scope, cout, bind, ret.
    cbn [fst snd exit_code final]. split; [reflexivity|].
    rewrite !destroy_effect. unfold log, World_Traced. cbn [hw trace].
    rewrite Ht, Ho, Hi. rewrite <- !app_assoc. reflexivity.
  - right. cbn [exit_code left_unread final]. auto.
Qed.

(** X12. With the handles as [main] constructs them the handler is never
    reached from the loop: for every input the session writes nothing to
    [std::cerr] and throws nothing; it ends with [main] returning 0 (a
    [q] was read) or it has used up the whole input. *)
Theorem ready_session_never_reports d :
  ready d ->
  exists delta,
    trace (final (session d)) = trace (world d) ++ delta /\
    existsb is_report delta = false /\
    (exit_code (session d) = Some 0 \/
     (exit_code (session d) = None /\ left_unread (session d) = ""%string)).
Proof.
  intros Hr.
  destruct (session_ready Hr) as (le & Hq1 & Hq2 & [[He Ht]|(He & Hu & Ht)]).
  - eexists. split; [exact Ht|]. split; [|left; assumption].
    rewrite !existsb_app, Hq2, !dtor_events_quiet. reflexivity.
  - exists le. split; [assumption|]. split; [assumption|]. right. auto.
Qed.

(** What a construction adds to the books: a controller and a line when
    it returns, nothing when it throws. *)
Lemma ctor_accounting n dir name w :
  exists delta,
    trace (snd (DigitalPin_ctor n dir name w)) = trace w ++ delta /\
    match fst (DigitalPin_ctor n dir name w) with
    | Returned p =>
        chip_ p <> NULL /\ line_ p <> NULL /\
        direction_ p = dir /\ mutex_ p = Unlocked /\
        (forall acc, held_chips_from acc delta = chip_ p :: acc) /\
        (forall acc, held_lines_from acc delta = line_ p :: acc)
    | Thrown e =>
        (forall acc, held_chips_from acc delta = acc) /\
        (forall acc, held_lines_from acc delta = acc)
    | Blocked => False
    end.
Proof.
  unfold DigitalPin_ctor. unfold_monad.
  destruct (gpiod_chip_open_by_number 0 (hw w)) as [c h1].
  destruct (c =? NULL) eqn:Ec; cbn [fst snd hw trace].
  { eexists. split; [rewrite <- app_assoc; reflexivity|].
    split; intros acc; cbn [app held_chips_from held_lines_from];
      rewrite ?Ec; reflexivity. }
  destruct (gpiod_chip_get_line c (to_unsigned n) h1) as [l h2].
  destruct (l =? NULL) eqn:El; cbn [fst snd hw trace].
  { eexists. split; [rewrite <- !app_assoc; reflexivity|].
    split; intros acc;
      cbn [app held_chips_from held_lines_from remove_ptr];
      rewrite ?Ec; cbn [held_chips_from remove_ptr];
      rewrite ?Z.eqb_refl; reflexivity. }
  destruct (gpiod_line_request l (config_for dir) 0 h2) as [rc h3].
  destruct (rc =? 0) eqn:Erc; cbn [negb fst snd hw trace].
  - eexists. split; [rewrite <- !app_assoc; reflexivity|].
    cbn [chip_ line_ direction_ mutex_].
    apply Z.eqb_neq in Ec as Hc. apply Z.eqb_neq in El as Hl.
    repeat split; auto; intros acc;
      cbn [app held_chips_from held_lines_from];
      rewrite ?Ec, ?Erc; reflexivity.
  - eexists. split; [rewrite <- !app_assoc; reflexivity|].
    split; intros acc;
      cbn [app held_chips_from held_lines_from remove_ptr];
      rewrite ?Ec, ?Erc; cbn [held_chips_from held_lines_from remove_ptr];
      rewrite ?Z.eqb_refl; reflexivity.
Qed.

(** What a destruction takes off the books. *)
Lemma dtor_accounting p :
  chip_ p <> NULL -> line_ p <> NULL ->
  (forall acc, held_chips_from (chip_ p :: acc) (dtor_events p) = acc) /\
  (forall acc, held_lines_from (line_ p :: acc) (dtor_events p) = acc).
Proof.
  intros Hc Hl. apply Z.eqb_neq in Hc, Hl. unfold dtor_events.
  rewrite Hc, Hl.
  split; intros acc; cbn [app held_chips_from held_lines_from remove_ptr];
    rewrite Z.eqb_refl; reflexivity.
Qed.

Lemma greeted_trace w0 :
  trace (greeted w0)
  = trace w0 ++ [EvCout "DigitalPin Driver Application"; EvCout endl].
Proof.
  unfold greeted, cout, bind, log, World_Traced. cbn.
  rewrite <- app_assoc. reflexivity.
Qed.

Lemma after_catch_effect e w :
  after_catch e w =
    (Returned 0,
     {| hw := hw w;
        trace := trace w ++ [EvCerr "Error: "; EvCerr (what e); EvCerr endl;
                             EvCout "Exiting DigitalPin Driver Application.";
                             EvCout endl] |}).
Proof.
  unfold after_catch, handler, epilogue, cerr, cout, bind, ret.
  f_equal. close_trace.
Qed.

(** X13. A failure at startup: when the construction of the output pin
    throws, or that of the input pin throws after the output pin was
    constructed, [main] reports the message on [std::cerr], writes the
    exit line and returns 0 without reading any command.  In the second
    case the output pin is destroyed (line released, controller closed)
    before the report. *)
Theorem startup_failure_reads_no_command cin w0 :
  (forall e w2,
     DigitalPin_ctor 17 Output "LED" (greeted w0) = (Thrown e, w2) ->
     main cin w0 =
       {| exit_code := Some 0; left_unread := cin;
          final :=
            {| hw := hw w2;
               trace := trace w2
                          ++ [EvCerr "Error: "; EvCerr (what e); EvCerr endl;
                              EvCout "Exiting DigitalPin Driver Application.";
                              EvCout endl] |} |}) /\
  (forall p w2 e w3,
     DigitalPin_ctor 17 Output "LED" (greeted w0) = (Returned p, w2) ->
     DigitalPin_ctor 27 Input "Button" w2 = (Thrown e, w3) ->
     main cin w0 =
       {| exit_code := Some 0; left_unread := cin;
          final :=
            {| hw := dtor_hw p (hw w3);
               trace := trace w3 ++ dtor_events p
                          ++ [EvCerr "Error: "; EvCerr (what e); EvCerr endl;
                              EvCout "Exiting DigitalPin Driver Application.";
                              EvCout endl] |} |}).
Proof.
  split.
  - intros e w2 H1. unfold main. fold (greeted w0). rewrite H1.
    rewrite after_catch_effect. reflexivity.
  - intros p w2 e w3 H1 H2. unfold main. fold (greeted w0).
    rewrite H1, H2, after_catch_effect, destroy_effect.
    unfold finish. cbn [fst snd hw trace]. rewrite <- app_assoc. reflexivity.
Qed.

(** X14. [main], for every provider and every input: whenever it returns
    it returns 0, after a failure too, and by then every controller it
    opened is closed and every line it reserved is released.  It fails to
    return only when the input runs out before a [q]. *)
Theorem main_releases_everything cin w0 :
  exists delta,
    trace (final (main cin w0)) = trace w0 ++ delta /\
    ((exit_code (main cin w0) = Some 0 /\
      held_chips delta = [] /\ held_lines delta = [])
     \/
     (exit_code (main cin w0) = None /\
      left_unread (main cin w0) = ""%string)).
Proof.
  unfold main. fold (greeted w0).
  pose proof (greeted_trace w0) as Hg.
  destruct (ctor_accounting 17 Output "LED" (greeted w0)) as (d1 & Ht1 & Ha1).
  destruct (DigitalPin_ctor 17 Output "LED" (greeted w0)) as [[p1|e1|] w2];
    cbn [fst snd] in Ht1, Ha1; [|clear Hg|contradiction].
  2:{ rewrite after_catch_effect. unfold finish.
      cbn [fst snd exit_code final left_unread trace].
      destruct Ha1 as [Hc1 Hl1].
      eexists. split.
      { rewrite Ht1, greeted_trace, <- !app_assoc. reflexivity. }
      left. split; [reflexivity|].
      unfold held_chips, held_lines.
      cbn [app held_chips_from held_lines_from].
      rewrite held_chips_from_app, held_lines_from_app, Hc1, Hl1.
      split; reflexivity. }
  destruct Ha1 as (Hcn1 & Hln1 & Hd1 & Hm1 & Hc1 & Hl1).
  destruct (ctor_accounting 27 Input "Button" w2) as (d2 & Ht2 & Ha2).
  destruct (DigitalPin_ctor 27 Input "Button" w2) as [[p2|e2|] w3];
    cbn [fst snd] in Ht2, Ha2; [| |contradiction].
  2:{ rewrite after_catch_effect, destroy_effect. unfold finish.
      cbn [fst snd exit_code final left_unread trace hw].
      destruct Ha2 as [Hc2 Hl2].
      destruct (dtor_accounting p1 Hcn1 Hln1) as [Hdc Hdl].
      eexists. split.
      { rewrite Ht2, Ht1, Hg, <- !app_assoc. reflexivity. }
      left. split; [reflexivity|].
      unfold held_chips, held_lines.
      cbn [app held_chips_from held_lines_from].
      rewrite !held_chips_from_app, !held_lines_from_app.
      rewrite Hc1, Hl1, Hc2, Hl2, Hdc, Hdl. split; reflexivity. }
  destruct Ha2 as (Hcn2 & Hln2 & Hd2 & Hm2 & Hc2 & Hl2).
  match goal with
  | |- context [session ?d] =>
      assert (Hr : ready d) by (repeat split; assumption);
      destruct (session_ready Hr)
        as (le & Hq1 & Hq2 & [[He Ht]|(He & Hu & Ht)]);
      cbn [outputPin inputPin world] in Ht
  end.
  - destruct (dtor_accounting p1 Hcn1 Hln1) as [Hdc1 Hdl1].
    destruct (dtor_accounting p2 Hcn2 Hln2) as [Hdc2 Hdl2].
    eexists. split.
    { rewrite Ht. unfold cout, bind, log, World_Traced. cbn [fst snd trace hw].
      rewrite Ht2, Ht1, Hg, <- !app_assoc. reflexivity. }
    left. split; [assumption|].
    unfold held_chips, held_lines.
    cbn [app held_chips_from held_lines_from].
    rewrite !held_chips_from_app, !held_lines_from_app.
    rewrite Hc1, Hl1, Hc2, Hl2.
    cbn [held_chips_from held_lines_from].
    rewrite !held_chips_from_app, !held_lines_from_app.
    rewrite (held_chips_from_quiet _ _ Hq1), (held_lines_from_quiet _ _ Hq1).
    rewrite Hdc2, Hdl2, Hdc1, Hdl1. split; reflexivity.
  - eexists. split.
    { rewrite Ht. unfold cout, bind, log, World_Traced. cbn [fst snd trace hw].
      rewrite Ht2, Ht1, Hg, <- !app_assoc. reflexivity. }
    right. split; assumption.
Qed.

End DriverMore.

(** * Further properties of threads sharing a handle *)

Section ThreadMore.

Context {G : Gpiod}.

Ltac lookup_thread Ht H :=
  rewrite (lookup_set_nth _ _ _ _ Ht) in H;
  let E := fresh "E" in
  match type of H with
  | (if Nat.eqb ?i ?t then _ else _) = _ =>
      destruct (Nat.eqb_spec i t) as [E|E];
      [ injection H as <-; try subst i | ]
  end.

Lemma run_ops_app ops1 ops2 s :
  run_ops (ops1 ++ ops2) s = run_ops ops2 (run_ops ops1 s).
Proof. unfold run_ops. apply fold_left_app. Qed.

Lemma serial_order_app h1 h2 :
  serial_order (h1 ++ h2) = serial_order h1 ++ serial_order h2.
Proof. unfold serial_order. rewrite executions_app, map_app. reflexivity. Qed.

(** A body run between the guard's lock and unlock is the member
    function. *)
Lemma call_from_body c p w r p' w' :
  mutex_ p = Unlocked ->
  body_of c (log EvMutexLock (set_mutex Locked p, w)) = (r, (p', w')) ->
  log EvMutexUnlock (set_mutex Unlocked p', w') = apply_op (op_of_call c) (p, w).
Proof.
  intros Hm Hb. destruct c as [|v]; cbn [op_of_call apply_op body_of] in *.
  - unfold read, lock_guard. cbn [fst snd]. rewrite Hm.
    unfold bind in Hb.
    destruct (read_body (log EvMutexLock (set_mutex Locked p, w)))
      as [[b|e|] [p1 w1]]; cbn in Hb |- *; inversion Hb; subst; reflexivity.
  - unfold write, lock_guard. cbn [fst snd]. rewrite Hm.
    unfold bind in Hb.
    destruct (write_body v (log EvMutexLock (set_mutex Locked p, w)))
      as [[b|e|] [p1 w1]]; cbn in Hb |- *; inversion Hb; subst; reflexivity.
Qed.

Lemma run_ops_unlocked ops p w :
  mutex_ p = Unlocked -> mutex_ (fst (run_ops ops (p, w))) = Unlocked.
Proof. intros Hm. rewrite run_ops_object; assumption. Qed.

Lemma lin_preserved p0 w0 base t st st' :
  mutex_ p0 = Unlocked ->
  serial_inv base st ->
  lin_inv (p0, w0) st ->
  step t st = Some st' ->
  lin_inv (p0, w0) st'.
Proof.
  intros Hm0 [Hex Hho _ _ _] [Hq Hh Hl]. unfold step.
  destruct (nth_error (threads st) t) as [th|] eqn:Ht; [|discriminate].
  destruct (pc th) as [|c|c|c r] eqn:Hpc.
  - destruct (todo th) as [|c cs]; [discriminate|].
    intros H; injection H as <-.
    constructor; cbn [threads object env history];
      rewrite serial_order_app; cbn [serial_order executions map];
      rewrite app_nil_r.
    + intros Hall. apply Hq. intros i thi Hi.
      destruct (Nat.eq_dec i t) as [->|Hne].
      * rewrite Ht in Hi. injection Hi as <-. unfold in_cs. rewrite Hpc.
        reflexivity.
      * apply (Hall i). rewrite (lookup_set_nth _ _ _ _ Ht).
        destruct (Nat.eqb_spec i t); [contradiction|assumption].
    + intros i thi c' Hi Hp.
      lookup_thread Ht Hi; [discriminate Hp|]. eauto.
    + intros i thi c' r Hi Hp.
      lookup_thread Ht Hi; [discriminate Hp|]. eauto.
  - destruct (mutex_ (object st)) eqn:Hmu; [|discriminate].
    assert (Hfree : forall i thi, nth_error (threads st) i = Some thi ->
                                  in_cs thi = false).
    { intros i thi Hi. destruct (in_cs thi) eqn:Ci; [|reflexivity].
      specialize (Hho i thi Hi Ci). congruence. }
    specialize (Hq Hfree).
    intros H; injection H as <-.
    constructor; cbn [threads object env history];
      rewrite serial_order_app; cbn [serial_order executions map];
      rewrite app_nil_r.
    + intros Hall. exfalso.
      assert (in_cs (mkThread (Holding c) (todo th) (results th)) = false)
        as Hbad; [|discriminate Hbad].
      apply (Hall t). rewrite (lookup_set_nth _ _ _ _ Ht), Nat.eqb_refl.
      reflexivity.
    + intros i thi c' Hi Hp.
      lookup_thread Ht Hi.
      * fold (serial_order (history st)). rewrite <- Hq. reflexivity.
      * pose proof (in_cs_holding _ Hp) as Ci.
        rewrite (Hfree _ _ Hi) in Ci. discriminate.
    + intros i thi c' r Hi Hp.
      lookup_thread Ht Hi; [discriminate Hp|].
      pose proof (in_cs_leaving _ Hp) as Ci.
      rewrite (Hfree _ _ Hi) in Ci. discriminate.
  - pose proof (in_cs_holding _ Hpc) as Ct.
    assert (Halone : forall i thi, nth_error (threads st) i = Some thi ->
                                   in_cs thi = true -> i = t)
      by (intros; eapply Hex; eauto).
    specialize (Hh _ _ _ Ht Hpc).
    destruct (body_of c (object st, env st)) as [r [p' w']] eqn:Hb.
    intros H; injection H as <-.
    rewrite Hh in Hb.
    destruct (run_ops (serial_order (history st)) (p0, w0)) as [ps ws] eqn:Hs.
    cbn [fst snd] in Hb.
    assert (Hms : mutex_ ps = Unlocked).
    { pose proof (run_ops_unlocked (serial_order (history st)) p0 w0 Hm0) as H.
      rewrite Hs in H. exact H. }
    pose proof (call_from_body c ps ws Hms Hb) as Hcall.
    constructor; cbn [threads object env history];
      rewrite serial_order_app; cbn [serial_order executions map snd];
      rewrite run_ops_app; fold (serial_order (history st)); rewrite Hs.
    + intros Hall. exfalso.
      assert (in_cs (mkThread (Leaving c r) (todo th) (results th)) = false)
        as Hbad; [|discriminate Hbad].
      apply (Hall t). rewrite (lookup_set_nth _ _ _ _ Ht), Nat.eqb_refl.
      reflexivity.
    + intros i thi c' Hi Hp. exfalso.
      lookup_thread Ht Hi; [discriminate Hp|].
      apply E. eauto using in_cs_holding.
    + intros i thi c' r' Hi Hp. exact Hcall.
  - pose proof (in_cs_leaving _ Hpc) as Ct.
    assert (Halone : forall i thi, nth_error (threads st) i = Some thi ->
                                   in_cs thi = true -> i = t)
      by (intros; eapply Hex; eauto).
    specialize (Hl _ _ _ _ Ht Hpc).
    intros H; injection H as <-.
    constructor; cbn [threads object env history];
      rewrite serial_order_app; cbn [serial_order executions map];
      rewrite app_nil_r; fold (serial_order (history st)).
    + intros _. rewrite <- Hl. reflexivity.
    + intros i thi c' Hi Hp. exfalso.
      lookup_thread Ht Hi; [discriminate Hp|].
      apply E. eauto using in_cs_holding.
    + intros i thi c' r' Hi Hp. exfalso.
      lookup_thread Ht Hi; [discriminate Hp|].
      apply E. eauto using in_cs_leaving.
Qed.

Lemma lin_run p0 w0 base sched : forall st,
  mutex_ p0 = Unlocked ->
  serial_inv base st ->
  lin_inv (p0, w0) st ->
  lin_inv (p0, w0) (run sched st).
Proof.
  induction sched as [|t sched IH]; intros st Hm Hs Hl; [assumption|].
  cbn [run]. destruct (step t st) as [st'|] eqn:Hst.
  - apply IH; [assumption| |].
    + eapply step_preserves; eassumption.
    + eapply lin_preserved; eassumption.
  - apply IH; assumption.
Qed.

Lemma lin_spawn p w work : lin_inv (p, w) (spawn p w work).
Proof.
  assert (Hidle : forall i thi,
             nth_error (threads (spawn p w work)) i = Some thi ->
             pc thi = Idle).
  { intros i thi Hi. cbn in Hi. apply nth_error_In in Hi.
    apply in_map_iff in Hi. destruct Hi as (cs & <- & _). reflexivity. }
  constructor.
  - reflexivity.
  - intros i thi c Hi Hp. apply Hidle in Hi. congruence.
  - intros i thi c r Hi Hp. apply Hidle in Hi. congruence.
Qed.

(** A member function blocks exactly when the handle's mutex is held. *)
Lemma member_blocks c p w :
  fst (member_of c (p, w)) = Blocked <-> mutex_ p = Locked.
Proof.
  destruct c as [|v]; unfold member_of, bind, read, write, lock_guard;
    cbn [fst snd]; destruct (mutex_ p) eqn:Hm.
  - split; [|discriminate].
    unfold read_body; unfold_monad; destruct (direction_ p); cbn; discriminate.
  - split; reflexivity.
  - split; [|discriminate].
    unfold write_body; unfold_monad; destruct (direction_ p); cbn;
      [discriminate|].
    destruct (gpiod_line_set_value (line_ p) (if v then 1 else 0) (hw w));
      cbn; discriminate.
  - split; reflexivity.
Qed.

(** A thread about to enter a call waits exactly when the mutex is
    held. *)
Lemma entering_waits t st th c :
  nth_error (threads st) t = Some th ->
  pc th = Entering c ->
  (step t st = None <-> mutex_ (object st) = Locked).
Proof.
  intros Ht Hp. unfold step. rewrite Ht, Hp.
  destruct (mutex_ (object st)); split; congruence.
Qed.

(** C9. For a constructed handle shared by any number of threads, each
    with any list of [read] and [write] calls to make, under every
    schedule: at most one thread is inside the critical section of a call;
    the trace since construction reads correctly against the mutex (locks
    and unlocks alternate and every provider call or throw falls between
    a lock and its unlock); the bodies have run in the order in which the
    lock was acquired, the acquisitions being the executions followed by
    at most the one call that holds the lock and has not run yet.  The
    lock in question is the one the member functions take: whenever the
    mutex is free, the handle, the provider state and the trace are those
    of [read] and [write] called one after the other in that order; while
    a call is in progress the state is that serial execution with the
    guard's lock or unlock outstanding; and a thread about to enter a
    call cannot move exactly when the member function it calls would
    block. *)
Theorem calls_are_serialized n dir name w p w' work sched :
  DigitalPin_ctor n dir name w = (Returned p, w') ->
  let st := run sched (spawn p w' work) in
  (forall i j thi thj,
     nth_error (threads st) i = Some thi ->
     nth_error (threads st) j = Some thj ->
     in_cs thi = true -> in_cs thj = true -> i = j) /\
  (exists delta,
     trace (env st) = trace w' ++ delta /\
     scan Unlocked delta = Some (mutex_ (object st))) /\
  (exists pending,
     acquisitions (history st) = executions (history st) ++ pending /\
     (List.length pending <= 1)%nat) /\
  (mutex_ (object st) = Unlocked ->
   (object st, env st) = run_ops (serial_order (history st)) (p, w')) /\
  lin_inv (p, w') st /\
  (forall t th c,
     nth_error (threads st) t = Some th ->
     pc th = Entering c ->
     (step t st = None <-> fst (member_of c (object st, env st)) = Blocked)).
Proof.
  intros Hc st.
  assert (Hm : mutex_ p = Unlocked).
  { destruct (DigitalPin_ctor_returned _ _ _ _ Hc)
      as (c & h1 & l & h2 & h3 & _ & _ & _ & _ & _ & -> & _).
    reflexivity. }
  pose proof (run_preserves sched (spawn_inv p w' work Hm)) as Hinv.
  pose proof (@lin_run p w' (trace w') sched (spawn p w' work) Hm
                (spawn_inv p w' work Hm) (lin_spawn p w' work)) as Hlin.
  fold st in Hinv, Hlin. destruct Hinv as [Hex Hho Htr Hoh Hoi].
  split; [exact Hex|]. split; [exact Htr|].
  split.
  { assert (Hdec : (exists i thi c, nth_error (threads st) i = Some thi /\
                                    pc thi = Holding c)
                   \/ (forall i thi c, nth_error (threads st) i = Some thi ->
                                       pc thi <> Holding c)).
    { generalize (threads st). intros l.
      induction l as [|th l IH].
      - right. intros [|i] thi c Hi; discriminate.
      - destruct (pc th) as [|c|c|c r] eqn:Hp;
          try (left; exists 0%nat, th, c; split; [reflexivity|assumption]);
          (destruct IH as [(i & thi & c' & Hi & Hq)|Hnone];
           [ left; exists (S i), thi, c'; split; assumption
           | right; intros [|i] thi c' Hi;
             [ injection Hi as <-; congruence | eapply Hnone; exact Hi ] ]). }
    destruct Hdec as [(i & thi & c & Hi & Hp)|Hnone].
    - exists [(i, c)]. split; [eauto|cbn; lia].
    - exists []. rewrite app_nil_r. split; [auto|cbn; lia]. }
  split.
  { intros Hfree. apply (lin_quiet Hlin). intros i thi Hi.
    destruct (in_cs thi) eqn:Ci; [|reflexivity].
    pose proof (Hho _ _ Hi Ci). congruence. }
  split; [exact Hlin|].
  intros t th c Ht Hp.
  rewrite (entering_waits _ _ Ht Hp), member_blocks. reflexivity.
Qed.

(** X15. Every interleaving is a serial execution.  For a constructed
    handle shared by threads, under every schedule, whenever the mutex is
    free the handle, the provider state and the trace are exactly those
    of making the calls one after the other on a single thread, in the
    order in which their bodies ran. *)
Theorem interleaving_is_serial n dir name w p w' work sched :
  DigitalPin_ctor n dir name w = (Returned p, w') ->
  let st := run sched (spawn p w' work) in
  mutex_ (object st) = Unlocked ->
  (object st, env st) = run_ops (serial_order (history st)) (p, w').
Proof.
  intros Hc st Hfree.
  assert (Hm : mutex_ p = Unlocked).
  { destruct (DigitalPin_ctor_returned _ _ _ _ Hc)
      as (c & h1 & l & h2 & h3 & _ & _ & _ & _ & _ & -> & _).
    reflexivity. }
  pose proof (run_preserves sched (spawn_inv p w' work Hm)) as Hs.
  pose proof (@lin_run p w' (trace w') sched (spawn p w' work) Hm
                (spawn_inv p w' work Hm) (lin_spawn p w' work)) as Hl.
  fold st in Hs, Hl.
  apply (lin_quiet Hl). intros i thi Hi.
  destruct (in_cs thi) eqn:Ci; [|reflexivity].
  pose proof (inv_holder Hs _ Hi Ci). congruence.
Qed.

(** The result of a body is the one the handle's direction dictates, and
    the body leaves the object as it is. *)
Lemma body_fits c p w r s' :
  body_of c (p, w) = (r, s') -> fits (direction_ p) c r /\ fst s' = p.
Proof.
  destruct c as [|v]; unfold body_of; unfold_monad;
    destruct (direction_ p); cbn.
  - intros H; inversion H; subst; cbn; auto.
  - intros H; inversion H; subst; cbn; auto.
  - intros H; inversion H; subst; cbn; auto.
  - destruct (gpiod_line_set_value (line_ p) (if v then 1 else 0) (hw w)).
    intros H; inversion H; subst; cbn; auto.
Qed.

Lemma books_preserved dir work t st st' :
  thread_inv dir work st -> step t st = Some st' -> thread_inv dir work st'.
Proof.
  intros [Hd Hc Hr Hl]. unfold step.
  destruct (nth_error (threads st) t) as [th|] eqn:Ht; [|discriminate].
  pose proof (Hc _ _ Ht) as (cs0 & Hw0 & Hcs0).
  destruct (pc th) as [|c|c|c r] eqn:Hpc.
  - destruct (todo th) as [|c cs] eqn:Htd; [discriminate|].
    intros H; injection H as <-.
    constructor; cbn [threads object env history].
    + assumption.
    + intros i thi Hi. lookup_thread Ht Hi; [|eauto].
      exists cs0. split; [assumption|].
      unfold current in *. rewrite Hpc in Hcs0. cbn in *. assumption.
    + intros i thi c' r Hi Hin. lookup_thread Ht Hi; eauto.
    + intros i thi c' r Hi Hp. lookup_thread Ht Hi; [discriminate Hp|eauto].
  - destruct (mutex_ (object st)) eqn:Hmu; [|discriminate].
    intros H; injection H as <-.
    constructor; cbn [threads object env history].
    + assumption.
    + intros i thi Hi. lookup_thread Ht Hi; [|eauto].
      exists cs0. split; [assumption|].
      unfold current in *. rewrite Hpc in Hcs0. cbn in *. assumption.
    + intros i thi c' r Hi Hin. lookup_thread Ht Hi; eauto.
    + intros i thi c' r Hi Hp. lookup_thread Ht Hi; [discriminate Hp|eauto].
  - destruct (body_of c (object st, env st)) as [r [p' w']] eqn:Hb.
    destruct (body_fits _ _ _ Hb) as [Hf Hp']. cbn in Hp'. subst p'.
    intros H; injection H as <-.
    constructor; cbn [threads object env history].
    + assumption.
    + intros i thi Hi. lookup_thread Ht Hi; [|eauto].
      exists cs0. split; [assumption|].
      unfold current in *. rewrite Hpc in Hcs0. cbn in *. assumption.
    + intros i thi c' r' Hi Hin. lookup_thread Ht Hi; eauto.
    + intros i thi c' r' Hi Hp. lookup_thread Ht Hi; [|eauto].
      cbn in Hp. injection Hp as <- <-. rewrite <- Hd. assumption.
  - intros H; injection H as <-.
    constructor; cbn [threads object env history].
    + assumption.
    + intros i thi Hi. lookup_thread Ht Hi; [|eauto].
      exists cs0. split; [assumption|].
      unfold current in *. rewrite Hpc in Hcs0. cbn in *.
      rewrite map_app, <- app_assoc. assumption.
    + intros i thi c' r' Hi Hin. lookup_thread Ht Hi; [|eauto].
      cbn in Hin. apply in_app_iff in Hin. destruct Hin as [Hin|[Heq|[]]].
      * eauto.
      * injection Heq as <- <-. eauto.
    + intros i thi c' r' Hi Hp. lookup_thread Ht Hi; [discriminate Hp|eauto].
Qed.

Lemma books_run dir work sched : forall st,
  thread_inv dir work st -> thread_inv dir work (run sched st).
Proof.
  induction sched as [|t sched IH]; intros st Hinv; [assumption|].
  cbn [run]. apply IH.
  destruct (step t st) as [st'|] eqn:Hs; [|assumption].
  eapply books_preserved; eassumption.
Qed.

Lemma books_spawn p w work : thread_inv (direction_ p) work (spawn p w work).
Proof.
  constructor; cbn [spawn threads object].
  - reflexivity.
  - intros i thi Hi. rewrite nth_error_map in Hi.
    destruct (nth_error work i) as [cs|]; [|discriminate].
    injection Hi as <-. exists cs. split; reflexivity.
  - intros i thi c r Hi Hin. rewrite nth_error_map in Hi.
    destruct (nth_error work i) as [cs|]; [|discriminate].
    injection Hi as <-. destruct Hin.
  - intros i thi c r Hi Hp. rewrite nth_error_map in Hi.
    destruct (nth_error work i) as [cs|]; [|discriminate].
    injection Hi as <-. discriminate Hp.
Qed.

(** X16. Under every interleaving each completed call has the result the
    handle's direction dictates: on an Output handle every [read] has
    thrown the wrong-direction error and every [write] has returned; on an
    Input handle every [read] has returned a value and every [write] has
    thrown.  No call is lost, repeated or reordered within its thread:
    the calls a thread has completed, the one it is in and the ones it
    has still to make are the calls it was given. *)
Theorem results_follow_direction n dir name w p w' work sched :
  DigitalPin_ctor n dir name w = (Returned p, w') ->
  let st := run sched (spawn p w' work) in
  forall i thi,
    nth_error (threads st) i = Some thi ->
    (forall c r, In (c, r) (results thi) -> fits dir c r) /\
    exists cs,
      nth_error work i = Some cs /\
      map fst (results thi) ++ current thi ++ todo thi = cs.
Proof.
  intros Hc st i thi Hi.
  assert (Hd : direction_ p = dir).
  { destruct (DigitalPin_ctor_returned _ _ _ _ Hc)
      as (c & h1 & l & h2 & h3 & _ & _ & _ & _ & _ & -> & _).
    reflexivity. }
  pose proof (books_run sched (books_spawn p w' work)) as Hb.
  rewrite Hd in Hb. fold st in Hb.
  split.
  - intros c r Hin. eapply (books_results Hb); eassumption.
  - eapply (books_calls Hb); eassumption.
Qed.

Lemma run_app sched1 : forall sched2 st,
  run (sched1 ++ sched2) st = run sched2 (run sched1 st).
Proof.
  induction sched1 as [|t sched1 IH]; intros sched2 st; [reflexivity|].
  cbn [app run]. apply IH.
Qed.

Lemma lookup_set_nth_same {A} (l : list A) t x0 x :
  nth_error l t = Some x0 -> nth_error (set_nth t x l) t = Some x.
Proof.
  intros Ht. rewrite (lookup_set_nth _ _ _ _ Ht), Nat.eqb_refl. reflexivity.
Qed.

Lemma holder_preserved t st st' :
  holder_inv st -> step t st = Some st' -> holder_inv st'.
Proof.
  unfold holder_inv, step. intros Hh.
  destruct (nth_error (threads st) t) as [th|] eqn:Ht; [|discriminate].
  destruct (pc th) as [|c|c|c r] eqn:Hpc.
  - destruct (todo th) as [|c cs]; [discriminate|].
    intros H; injection H as <-. cbn [threads object]. intros Hl.
    destruct (Hh Hl) as (i & thi & Hi & Ci).
    exists i, thi. split; [|assumption].
    rewrite (lookup_set_nth _ _ _ _ Ht).
    destruct (Nat.eqb_spec i t) as [->|]; [|assumption].
    rewrite Ht in Hi. injection Hi as <-.
    unfold in_cs in Ci. rewrite Hpc in Ci. discriminate.
  - destruct (mutex_ (object st)); [|discriminate].
    intros H; injection H as <-. cbn [threads object]. intros _.
    exists t, (mkThread (Holding c) (todo th) (results th)).
    split; [eapply lookup_set_nth_same; eassumption|reflexivity].
  - destruct (body_of c (object st, env st)) as [r [p' w']] eqn:Hb.
    intros H; injection H as <-. cbn [threads object]. intros _.
    exists t, (mkThread (Leaving c r) (todo th) (results th)).
    split; [eapply lookup_set_nth_same; eassumption|reflexivity].
  - intros H; injection H as <-. cbn [threads object]. intros Hl.
    destruct (object st); discriminate Hl.
Qed.

(** A thread with something left to do can take a step, or the thread
    that holds the mutex can. *)
Lemma progress st :
  holder_inv st ->
  (exists i thi, nth_error (threads st) i = Some thi /\ finished thi = false) ->
  exists t st', step t st = Some st'.
Proof.
  intros Hh (i & thi & Hi & Hf).
  assert (Hcs : forall j thj, nth_error (threads st) j = Some thj ->
                              in_cs thj = true -> exists st', step j st = Some st').
  { intros j thj Hj Cj. unfold step. rewrite Hj. unfold in_cs in Cj.
    destruct (pc thj); try discriminate.
    - destruct (body_of c (object st, env st)) as [r [p' w']].
      eexists; reflexivity.
    - eexists; reflexivity. }
  destruct (pc thi) as [|c|c|c r] eqn:Hpc.
  - exists i. unfold step. rewrite Hi, Hpc.
    unfold finished in Hf. rewrite Hpc in Hf.
    destruct (todo thi); [discriminate|]. eexists; reflexivity.
  - destruct (mutex_ (object st)) eqn:Hmu.
    + exists i. unfold step. rewrite Hi, Hpc, Hmu. eexists; reflexivity.
    + destruct (Hh Hmu) as (j & thj & Hj & Cj).
      exists j. eapply Hcs; eassumption.
  - exists i. eapply Hcs; [eassumption|]. unfold in_cs. rewrite Hpc. reflexivity.
  - exists i. eapply Hcs; [eassumption|]. unfold in_cs. rewrite Hpc. reflexivity.
Qed.

Lemma total_weight_set_nth l : forall t th th',
  nth_error l t = Some th ->
  S (weight th') = weight th ->
  S (total_weight (set_nth t th' l)) = total_weight l.
Proof.
  induction l as [|y l IH]; intros t th th' Ht Hw.
  - destruct t; discriminate.
  - destruct t as [|t]; cbn in *.
    + injection Ht as ->. lia.
    + rewrite <- (IH _ _ _ Ht Hw). lia.
Qed.

(** Every step uses up one unit of the work that is left. *)
Lemma step_weight t st st' :
  step t st = Some st' ->
  S (total_weight (threads st')) = total_weight (threads st).
Proof.
  unfold step.
  destruct (nth_error (threads st) t) as [th|] eqn:Ht; [|discriminate].
  destruct (pc th) as [|c|c|c r] eqn:Hpc.
  - destruct (todo th) as [|c cs] eqn:Htd; [discriminate|].
    intros H; injection H as <-. cbn [threads].
    eapply total_weight_set_nth; [eassumption|].
    unfold weight. rewrite Hpc, Htd. cbn [pc todo List.length]. lia.
  - destruct (mutex_ (object st)); [|discriminate].
    intros H; injection H as <-. cbn [threads].
    eapply total_weight_set_nth; [eassumption|].
    unfold weight. rewrite Hpc. cbn [pc todo]. lia.
  - destruct (body_of c (object st, env st)) as [r [p' w']].
    intros H; injection H as <-. cbn [threads].
    eapply total_weight_set_nth; [eassumption|].
    unfold weight. rewrite Hpc. cbn [pc todo]. lia.
  - intros H; injection H as <-. cbn [threads].
    eapply total_weight_set_nth; [eassumption|].
    unfold weight. rewrite Hpc. cbn [pc todo]. lia.
Qed.

Lemma finished_or_not (l : list Thread) :
  (forall i thi, nth_error l i = Some thi -> finished thi = true) \/
  (exists i thi, nth_error l i = Some thi /\ finished thi = false).
Proof.
  induction l as [|th l IH].
  - left. intros [|i] thi Hi; discriminate.
  - destruct (finished th) eqn:Hf.
    + destruct IH as [Hall|(i & thi & Hi & Hn)].
      * left. intros [|i] thi Hi; cbn in Hi; [congruence|eauto].
      * right. exists (S i), thi. auto.
    + right. exists 0%nat, th. auto.
Qed.

Lemma can_finish k : forall st,
  (total_weight (threads st) <= k)%nat ->
  holder_inv st ->
  exists more, all_finished (run more st).
Proof.
  induction k as [|k IH]; intros st Hk Hh;
    (destruct (finished_or_not (threads st)) as [Hall|Hsome];
     [exists []; exact Hall|]);
    destruct (progress Hh Hsome) as (t & st' & Hs);
    pose proof (step_weight _ _ Hs) as Hw.
  - lia.
  - destruct (IH st') as (more & Hfin).
    + lia.
    + eapply holder_preserved; eassumption.
    + exists (t :: more). cbn [run]. rewrite Hs. exact Hfin.
Qed.

Lemma holder_run sched : forall st,
  holder_inv st -> holder_inv (run sched st).
Proof.
  induction sched as [|t sched IH]; intros st Hh; [assumption|].
  cbn [run]. apply IH.
  destruct (step t st) as [st'|] eqn:Hs; [|assumption].
  eapply holder_preserved; eassumption.
Qed.

Lemma calls_of_app i h1 h2 :
  calls_of i (h1 ++ h2) = calls_of i h1 ++ calls_of i h2.
Proof.
  unfold calls_of. rewrite executions_app, filter_app, map_app. reflexivity.
Qed.

Lemma exec_preserved t st st' :
  exec_inv st -> step t st = Some st' -> exec_inv st'.
Proof.
  unfold exec_inv, step. intros Hinv.
  destruct (nth_error (threads st) t) as [th|] eqn:Ht; [|discriminate].
  pose proof (Hinv _ _ Ht) as Hth.
  destruct (pc th) as [|c|c|c r] eqn:Hpc.
  - destruct (todo th) as [|c cs]; [discriminate|].
    intros H; injection H as <-. cbn [threads history].
    intros i thi Hi. rewrite calls_of_app. cbn [calls_of executions filter map].
    rewrite app_nil_r. lookup_thread Ht Hi; [|eauto].
    cbn [pc results]. exact Hth.
  - destruct (mutex_ (object st)); [|discriminate].
    intros H; injection H as <-. cbn [threads history].
    intros i thi Hi. rewrite calls_of_app. cbn [calls_of executions filter map].
    rewrite app_nil_r. lookup_thread Ht Hi; [|eauto].
    cbn [pc results]. exact Hth.
  - destruct (body_of c (object st, env st)) as [r [p' w']].
    intros H; injection H as <-. cbn [threads history].
    intros i thi Hi. rewrite calls_of_app.
    cbn [calls_of executions filter map fst snd].
    lookup_thread Ht Hi.
    + rewrite Nat.eqb_refl. cbn [map snd pc results]. rewrite Hth, app_nil_r.
      reflexivity.
    + destruct (Nat.eqb_spec t i) as [->|_]; [contradiction|].
      cbn [map]. rewrite app_nil_r. eauto.
  - intros H; injection H as <-. cbn [threads history].
    intros i thi Hi. rewrite calls_of_app. cbn [calls_of executions filter map].
    rewrite app_nil_r. lookup_thread Ht Hi; [|eauto].
    cbn [pc results]. rewrite Hth, map_app, app_nil_r. reflexivity.
Qed.

Lemma exec_run sched : forall st, exec_inv st -> exec_inv (run sched st).
Proof.
  induction sched as [|t sched IH]; intros st Hinv; [assumption|].
  cbn [run]. apply IH.
  destruct (step t st) as [st'|] eqn:Hs; [|assumption].
  eapply exec_preserved; eassumption.
Qed.

Lemma exec_spawn p w work : exec_inv (spawn p w work).
Proof.
  intros i thi Hi. cbn [spawn threads history] in *.
  rewrite nth_error_map in Hi.
  destruct (nth_error work i); [|discriminate].
  injection Hi as <-. reflexivity.
Qed.

(** X17. No interleaving gets stuck, and what the threads then have done
    is what the member functions do.  From the state any schedule has led
    to, some continuation lets every thread make all the calls it was
    given: at its end every thread is idle with nothing left to do, its
    completed calls are exactly the calls it was given, and the mutex is
    free.  The handle, the provider state and the trace are then those of
    [read] and [write] called one after the other, each thread's calls
    appearing in that serial execution in the order the thread was given
    them: every one of them, the throwing ones too, gave the mutex
    back. *)
Theorem every_call_can_complete n dir name w p w' work sched :
  DigitalPin_ctor n dir name w = (Returned p, w') ->
  exists more,
    let st := run (sched ++ more) (spawn p w' work) in
    mutex_ (object st) = Unlocked /\
    (forall i thi,
       nth_error (threads st) i = Some thi ->
       finished thi = true /\
       nth_error work i = Some (map fst (results thi))) /\
    (object st, env st) = run_ops (serial_order (history st)) (p, w') /\
    (forall i cs, nth_error work i = Some cs -> calls_of i (history st) = cs).
Proof.
  intros Hc.
  assert (Hpm : mutex_ p = Unlocked /\ direction_ p = dir).
  { destruct (DigitalPin_ctor_returned _ _ _ _ Hc)
      as (c & h1 & l & h2 & h3 & _ & _ & _ & _ & _ & -> & _).
    split; reflexivity. }
  destruct Hpm as [Hm Hd].
  assert (Hh0 : holder_inv (spawn p w' work)).
  { unfold holder_inv. cbn [spawn object]. congruence. }
  pose proof (holder_run sched Hh0) as Hh.
  destruct (can_finish (Nat.le_refl _) Hh) as (more & Hfin).
  exists more. cbv zeta.
  pose proof (books_run (sched ++ more) (books_spawn p w' work)) as Hb.
  pose proof (exec_run (sched ++ more) (exec_spawn p w' work)) as He.
  pose proof (@lin_run p w' (trace w') (sched ++ more) (spawn p w' work) Hm
                (spawn_inv p w' work Hm) (lin_spawn p w' work)) as Hlin.
  pose proof (holder_run (sched ++ more) Hh0) as Hh'.
  rewrite run_app in Hb, He, Hlin, Hh' |- *.
  set (st := run more (run sched (spawn p w' work))) in *.
  assert (Hidle : forall i thi, nth_error (threads st) i = Some thi ->
                                pc thi = Idle /\ todo thi = []).
  { intros i thi Hi. specialize (Hfin _ _ Hi). unfold finished in Hfin.
    destruct (pc thi); try discriminate.
    destruct (todo thi); [auto|discriminate]. }
  assert (Hres : forall i thi, nth_error (threads st) i = Some thi ->
                               nth_error work i = Some (map fst (results thi))).
  { intros i thi Hi. destruct (Hidle _ _ Hi) as [Hp Ht].
    destruct (books_calls Hb _ Hi) as (cs & Hw & Hcs).
    rewrite Hw. f_equal. unfold current in Hcs. rewrite Hp, Ht in Hcs.
    cbn in Hcs. rewrite app_nil_r in Hcs. congruence. }
  split; [|split; [|split]].
  - destruct (mutex_ (object st)) eqn:Hmu; [reflexivity|].
    destruct (Hh' Hmu) as (i & thi & Hi & Ci).
    destruct (Hidle _ _ Hi) as [Hp _]. unfold in_cs in Ci. rewrite Hp in Ci.
    discriminate.
  - intros i thi Hi. split; [exact (Hfin _ _ Hi)|exact (Hres _ _ Hi)].
  - apply (lin_quiet Hlin). intros i thi Hi.
    destruct (Hidle _ _ Hi) as [Hp _]. unfold in_cs. rewrite Hp. reflexivity.
  - intros i cs Hw.
    destruct (nth_error (threads st) i) as [thi|] eqn:Hi.
    + pose proof (Hres _ _ Hi) as Hw'. rewrite Hw in Hw'. injection Hw' as ->.
      rewrite (He _ _ Hi). destruct (Hidle _ _ Hi) as [Hp _]. rewrite Hp.
      apply app_nil_r.
    + exfalso.
      assert (Hlen : List.length (threads st) = List.length work).
      { unfold st. rewrite <- run_app.
        generalize (sched ++ more). intros sc.
        assert (Hg : forall sc s0, List.length (threads (run sc s0))
                                   = List.length (threads s0)).
        { clear. induction sc as [|t sc IH]; intros s0; [reflexivity|].
          cbn [run]. rewrite IH.
          destruct (step t s0) as [s1|] eqn:Hs; [|reflexivity].
          unfold step in Hs.
          destruct (nth_error (threads s0) t) as [th|]; [|discriminate].
          assert (Hset : forall x, List.length (set_nth t x (threads s0))
                                   = List.length (threads s0)).
          { intros x. generalize t. generalize (threads s0).
            induction l as [|y l IHl]; intros [|k]; cbn; auto. }
          destruct (pc th).
          - destruct (todo th); [discriminate|].
            injection Hs as <-. apply Hset.
          - destruct (mutex_ (object s0)); [|discriminate].
            injection Hs as <-. apply Hset.
          - destruct (body_of c (object s0, env s0)) as [r [p1 w1]].
            injection Hs as <-. apply Hset.
          - injection Hs as <-. apply Hset. }
        rewrite Hg. cbn [spawn threads]. apply length_map. }
      apply nth_error_None in Hi.
      assert (nth_error work i <> None) by congruence.
      apply nth_error_Some in H. lia.
Qed.

End ThreadMore.

(** * The properties on the simulated board *)

Example to_string_17 : to_string 17 = "17"%string.
Proof. reflexivity. Qed.

Example to_string_0 : to_string 0 = "0"%string.
Proof. reflexivity. Qed.

Example to_string_minus_3 : to_string (-3) = "-3"%string.
Proof. reflexivity. Qed.

(** A pin number that is negative as an [int] reaches libgpiod as a large
    offset, which no controller has. *)
Example negative_pin_has_no_line :
  to_unsigned (-1) = 4294967295 /\
  fst (DigitalPin_ctor (-1) Input "" (boot board))
  = Thrown (runtime_error "Failed to access GPIO line for pin number -1").
Proof. split; reflexivity. Qed.

(** Without the controller device nothing is acquired and nothing is
    closed. *)
Example no_controller :
  DigitalPin_ctor 17 Output "LED" (boot no_board)
  = (Thrown (runtime_error "Failed to open GPIO chip: No such file or directory"),
     {| hw := sim_set_errno "No such file or directory" no_board;
        trace := [EvChipOpen 0 NULL;
                  EvThrow (runtime_error
                             "Failed to open GPIO chip: No such file or directory")] |}).
Proof. reflexivity. Qed.

(** Construction followed by destruction gives the line back: the same
    pin can be constructed again. *)
Example construct_destroy_construct :
  exists p w,
    DigitalPin_ctor 17 Output "LED" (destroy led_pin led_world) = (Returned p, w).
Proof. do 2 eexists. vm_compute. reflexivity. Qed.

(** A written value is what the line then carries. *)
Example write_then_raw_read :
  gpiod_line_get_value (line_ led_pin)
    (hw (snd (snd (write true (led_pin, led_world))))) = 1.
Proof. reflexivity. Qed.

(** The demo: LED on, button read, an invalid command, LED off, quit. *)
Example main_session :
  let m := main "1 r x0q1" (boot board) in
  exit_code m = Some 0 /\ left_unread m = "1"%string /\
  held_chips (trace (final m)) = [] /\ held_lines (trace (final m)) = [] /\
  filter (fun ev => match ev with EvCout _ | EvCerr _ => true | _ => false end)
         (trace (final m))
  = [EvCout "DigitalPin Driver Application"; EvCout endl;
     EvCout "Setup complete. Press '1' to turn on the LED, '0' to turn off, and 'r' to read the button state. Press 'q' to quit.";
     EvCout endl;
     EvCout "LED turned ON."; EvCout endl;
     EvCout "Button state: "; EvCout "Pressed"; EvCout endl;
     EvCout "Invalid command."; EvCout endl;
     EvCout "LED turned OFF."; EvCout endl;
     EvCout "Exiting DigitalPin Driver Application."; EvCout endl].
Proof. vm_compute. repeat split. Qed.

(** A construction failure at startup is reported and [main] returns
    without reading a command. *)
Example main_line_busy :
  let m := main "1q" (boot board_busy17) in
  exit_code m = Some 0 /\ left_unread m = "1q"%string /\
  held_chips (trace (final m)) = [] /\
  filter (fun ev => match ev with EvCerr _ => true | _ => false end)
         (trace (final m))
  = [EvCerr "Error: ";
     EvCerr "Failed to configure GPIO pin: Device or resource busy";
     EvCerr endl].
Proof. vm_compute. repeat split. Qed.

(** Two threads on the LED handle, run to completion. *)
Example two_threads_complete :
  map results
    (threads (run [0; 1; 0; 1; 1; 0; 0; 1; 1; 1; 0; 0; 0; 0; 0]%nat
                (spawn led_pin led_world
                   [[CallWrite true; CallRead]; [CallWrite false]])))
  = [[(CallWrite true, Returned None); (CallRead, Thrown wrong_read)];
     [(CallWrite false, Returned None)]].
Proof. reflexivity. Qed.

(** A thread whose next step is the guard constructor does not move
    while another thread holds the mutex. *)
Example second_thread_waits :
  let st := run [0; 1; 0]%nat
              (spawn led_pin led_world [[CallWrite true]; [CallWrite false]]) in
  step 1 st = None /\ map pc (threads st)
                      = [Holding (CallWrite true); Entering (CallWrite false)].
Proof. split; reflexivity. Qed.


Lemma read_on_output_throws_witness :
  DigitalPin_ctor 17 Output "LED" (boot board) = (Returned led_pin, led_world)
  /\ fst (read (run_ops [OpWrite true; OpGetName] (led_pin, led_world)))
     = Thrown wrong_read
  /\ hw (snd (snd (read (run_ops [OpWrite true; OpGetName] (led_pin, led_world)))))
     = hw (snd (run_ops [OpWrite true; OpGetName] (led_pin, led_world))).
Proof.
  split; [reflexivity|].
  destruct (@read_on_output_throws SimGpiod 17 "LED" (boot board)
              led_pin led_world [OpWrite true; OpGetName] _ _
              eq_refl eq_refl) as [H _].
  split; [exact (f_equal fst H) | exact (f_equal (fun r => hw (snd (snd r))) H)].
Defined.

Lemma write_on_input_throws_witness :
  DigitalPin_ctor 27 Input "Button" (boot board)
  = (Returned button_pin, button_world)
  /\ fst (write true (run_ops [OpRead] (button_pin, button_world)))
     = Thrown wrong_write
  /\ hw (snd (snd (write true (run_ops [OpRead] (button_pin, button_world)))))
     = hw (snd (run_ops [OpRead] (button_pin, button_world))).
Proof.
  split; [reflexivity|].
  destruct (@write_on_input_throws SimGpiod 27 "Button" (boot board)
              button_pin button_world [OpRead] _ _ true
              eq_refl eq_refl) as [H _].
  split; [exact (f_equal fst H) | exact (f_equal (fun r => hw (snd (snd r))) H)].
Defined.

Lemma read_on_input_value_witness :
  DigitalPin_ctor 27 Input "Button" (boot board)
  = (Returned button_pin, button_world)
  /\ gpiod_line_get_value (line_ button_pin) (hw button_world) = 1
  /\ fst (read (button_pin, button_world)) = Returned true.
Proof.
  split; [reflexivity|]. split; [reflexivity|].
  destruct (@read_on_input_value SimGpiod 27 "Button" (boot board)
              button_pin button_world [] _ _ eq_refl eq_refl) as [H _].
  exact (f_equal fst H).
Defined.

Lemma failed_construction_closes_controller_witness :
  gpiod_chip_open_by_number 0 board = (4096, snd (sim_chip_open_by_number 0 board))
  /\ fst (DigitalPin_ctor 99 Output "" (boot board))
     = Thrown (runtime_error "Failed to access GPIO line for pin number 99")
  /\ (exists pre,
        trace (snd (DigitalPin_ctor 99 Output "" (boot board)))
        = [] ++ pre ++ [EvChipClose 4096;
                        EvThrow (runtime_error
                                   "Failed to access GPIO line for pin number 99")]
        /\ held_chips
             (pre ++ [EvChipClose 4096;
                      EvThrow (runtime_error
                                 "Failed to access GPIO line for pin number 99")])
           = [])
  /\ fst (DigitalPin_ctor 17 Output "LED" (boot board_busy17))
     = Thrown (runtime_error
                 "Failed to configure GPIO pin: Device or resource busy")
  /\ (exists pre,
        trace (snd (DigitalPin_ctor 17 Output "LED" (boot board_busy17)))
        = [] ++ pre ++ [EvChipClose 4096;
                        EvThrow (runtime_error
                                   "Failed to configure GPIO pin: Device or resource busy")]
        /\ held_lines
             (pre ++ [EvChipClose 4096;
                      EvThrow (runtime_error
                                 "Failed to configure GPIO pin: Device or resource busy")])
           = []).
Proof.
  split; [reflexivity|]. split; [reflexivity|]. split.
  - destruct (@failed_construction_closes_controller SimGpiod 99 Output ""
                (boot board) 4096 _ _ _ eq_refl
                ltac:(unfold NULL; discriminate) eq_refl)
      as (l & h2 & pre & _ & _ & Ht & Hc & _).
    exists pre. split; assumption.
  - split; [reflexivity|].
    destruct (@failed_construction_closes_controller SimGpiod 17 Output "LED"
                (boot board_busy17) 4096 _ _ _ eq_refl
                ltac:(unfold NULL; discriminate) eq_refl)
      as (l & h2 & pre & _ & _ & Ht & _ & Hl).
    exists pre. split; assumption.
Defined.

Lemma direction_never_changes_witness :
  DigitalPin_ctor 17 Output "LED" (boot board) = (Returned led_pin, led_world)
  /\ direction_ (fst (run_ops [OpRead; OpWrite false; OpGetName]
                        (led_pin, led_world))) = Output
  /\ direction_ (fst (snd (DigitalPin_dtor
                             (run_ops [OpRead; OpWrite false; OpGetName]
                                (led_pin, led_world))))) = Output.
Proof.
  split; [reflexivity|].
  destruct (@direction_never_changes SimGpiod 17 Output "LED" (boot board)
              led_pin led_world eq_refl) as [_ H].
  exact (H [OpRead; OpWrite false; OpGetName]).
Defined.

Lemma getName_returns_label_witness :
  fst (getName (run_ops [OpWrite true] (led_pin, led_world))) = Returned "LED"%string
  /\ fst (getName (mkDigitalPin 17 Output "Pin17" 4096 4097 Unlocked,
                   snd (construct 17 Output None (boot board))))
     = Returned "Pin17"%string.
Proof.
  destruct (@getName_returns_label SimGpiod 17 Output (boot board))
    as (Hs & Hn & _).
  split.
  - exact (f_equal fst
             (Hs "LED"%string led_pin led_world ltac:(discriminate) eq_refl
                 [OpWrite true])).
  - exact (f_equal fst (Hn _ _ eq_refl [])).
Defined.

Lemma empty_label_is_default_witness :
  construct 5 Input (Some ""%string) (boot board)
  = (Returned (mkDigitalPin 5 Input "Pin5" 4096 4097 Unlocked),
     snd (construct 5 Input None (boot board)))
  /\ name_ (mkDigitalPin 5 Input "Pin5" 4096 4097 Unlocked) = "Pin5"%string.
Proof.
  split; [reflexivity|].
  destruct (@empty_label_is_default SimGpiod 5 Input (boot board)) as [_ H].
  exact (proj1 (H _ _ eq_refl)).
Defined.

Lemma calls_are_serialized_witness :
  DigitalPin_ctor 17 Output "LED" (boot board) = (Returned led_pin, led_world)
  /\ let st := run [0; 1; 0; 1; 1; 0; 0; 1; 1; 1; 0; 0; 0; 0; 0]%nat
                 (spawn led_pin led_world
                    [[CallWrite true; CallRead]; [CallWrite false]]) in
     (exists pending,
        acquisitions (history st) = executions (history st) ++ pending /\
        (List.length pending <= 1)%nat)
     /\ mutex_ (object st) = Unlocked
     /\ (object st, env st)
        = run_ops (serial_order (history st)) (led_pin, led_world).
Proof.
  split; [reflexivity|].
  destruct (@calls_are_serialized SimGpiod 17 Output "LED" (boot board)
              led_pin led_world
              [[CallWrite true; CallRead]; [CallWrite false]]
              [0; 1; 0; 1; 1; 0; 0; 1; 1; 1; 0; 0; 0; 0; 0]%nat eq_refl)
    as (_ & _ & Hord & Hser & _).
  split; [exact Hord|]. split; [reflexivity|]. exact (Hser eq_refl).
Defined.


(** * The further properties on the simulated board *)

Lemma write_on_output_sets_value_witness :
  DigitalPin_ctor 17 Output "LED" (boot board) = (Returned led_pin, led_world)
  /\ fst (write true (run_ops [OpRead] (led_pin, led_world))) = Returned tt
  /\ trace (snd (snd (write true (run_ops [OpRead] (led_pin, led_world)))))
     = trace (snd (run_ops [OpRead] (led_pin, led_world)))
         ++ [EvMutexLock; EvSetValue 4097 1 0; EvMutexUnlock].
Proof.
  split; [reflexivity|].
  pose proof (@write_on_output_sets_value SimGpiod 17 "LED" (boot board)
                led_pin led_world [OpRead] _ _ true eq_refl eq_refl) as H.
  split; [exact (f_equal fst H)
         | exact (f_equal (fun r => trace (snd (snd r))) H)].
Defined.

Lemma open_failure_makes_no_other_call_witness :
  gpiod_chip_open_by_number 0 no_board
  = (NULL, sim_set_errno "No such file or directory" no_board)
  /\ DigitalPin_ctor 17 Output "LED" (boot no_board)
     = (Thrown (runtime_error
                  "Failed to open GPIO chip: No such file or directory"),
        {| hw := sim_set_errno "No such file or directory" no_board;
           trace := [EvChipOpen 0 NULL;
                     EvThrow (runtime_error
                                "Failed to open GPIO chip: No such file or directory")] |}).
Proof.
  split; [reflexivity|].
  exact (@open_failure_makes_no_other_call SimGpiod 17 Output "LED"
           (boot no_board) _ eq_refl).
Defined.

Lemma lifecycle_is_balanced_witness :
  DigitalPin_ctor 17 Output "LED" (boot board) = (Returned led_pin, led_world)
  /\ exists used,
       trace (snd (snd (DigitalPin_dtor
                          (run_ops [OpWrite true; OpRead] (led_pin, led_world)))))
       = [] ++ [EvChipOpen 0 4096; EvGetLine 4096 17 4097;
                EvLineRequest 4097 (config_for Output) 0 0]
            ++ used ++ [EvLineRelease 4097; EvChipClose 4096]
       /\ existsb is_lifecycle used = false.
Proof.
  split; [reflexivity|].
  destruct (@lifecycle_is_balanced SimGpiod 17 Output "LED" (boot board)
              led_pin led_world [OpWrite true; OpRead] eq_refl)
    as (used & Ht & Hq & _).
  exists used. split; [exact Ht|exact Hq].
Defined.

Lemma negative_pin_wraps_witness :
  gpiod_chip_open_by_number 0 board = (4096, snd (sim_chip_open_by_number 0 board))
  /\ exists l,
       In (EvGetLine 4096 4294967295 l)
          (trace (snd (DigitalPin_ctor (-1) Input "" (boot board)))).
Proof.
  split; [reflexivity|].
  destruct (@negative_pin_wraps SimGpiod (-1) Input "" (boot board) 4096 _
              ltac:(lia) eq_refl ltac:(unfold NULL; discriminate))
    as (l & Hin & _).
  exists l. exact Hin.
Defined.

Lemma default_labels_distinct_witness :
  construct 5 Input None (boot board)
  = (Returned (mkDigitalPin 5 Input "Pin5" 4096 4097 Unlocked),
     snd (construct 5 Input None (boot board)))
  /\ construct 5 Output None (boot board_busy27)
     = (Returned (mkDigitalPin 5 Output "Pin5" 4096 4097 Unlocked),
        snd (construct 5 Output None (boot board_busy27)))
  /\ 5 = 5.
Proof.
  split; [reflexivity|]. split; [reflexivity|].
  exact (@default_labels_distinct SimGpiod 5 5 Input Output (boot board)
           (boot board_busy27) _ _ _ _ eq_refl eq_refl eq_refl).
Defined.

Lemma quit_ends_session_witness :
  unread (demo "q1") = "q1"%string
  /\ exit_code (session (demo "q1")) = Some 0
  /\ left_unread (session (demo "q1")) = "1"%string.
Proof.
  split; [reflexivity|].
  pose proof (@quit_ends_session SimGpiod (demo "q1") "1" eq_refl) as H.
  split; [exact (f_equal exit_code H) | exact (f_equal left_unread H)].
Defined.

Lemma whitespace_is_skipped_witness :
  isspace " " = true
  /\ session (demo " q") = session (taken "q" (demo " q")).
Proof.
  split; [reflexivity|].
  exact (@whitespace_is_skipped SimGpiod (demo " q") " "%char "q"
           eq_refl eq_refl).
Defined.

Lemma unknown_command_is_reported_witness :
  let d := demo "xq" in
  session d =
  session {| outputPin := outputPin d; inputPin := inputPin d; unread := "q";
             world :=
               {| hw := hw (world d);
                  trace := trace (world d)
                             ++ [EvCout "Invalid command."; EvCout endl] |} |}.
Proof.
  exact (@unknown_command_is_reported SimGpiod (demo "xq") "x"%char "q"
           eq_refl eq_refl
           ltac:(discriminate) ltac:(discriminate)
           ltac:(discriminate) ltac:(discriminate)).
Defined.

Lemma led_command_reports_success_witness :
  let d := demo "1q" in
  direction_ (outputPin d) = Output
  /\ session d =
     session {| outputPin := outputPin d; inputPin := inputPin d; unread := "q";
                world :=
                  {| hw := snd (gpiod_line_set_value 4097 1 (hw (world d)));
                     trace :=
                       trace (world d)
                         ++ [EvMutexLock; EvSetValue 4097 1 0; EvMutexUnlock;
                             EvCout "LED turned ON."; EvCout endl] |} |}.
Proof.
  split; [reflexivity|].
  exact (@led_command_reports_success SimGpiod (demo "1q") true "q"
           eq_refl eq_refl eq_refl).
Defined.

Lemma button_command_reports_level_witness :
  let d := demo "rq" in
  direction_ (inputPin d) = Input
  /\ session d =
     session {| outputPin := outputPin d; inputPin := inputPin d; unread := "q";
                world :=
                  {| hw := hw (world d);
                     trace :=
                       trace (world d)
                         ++ [EvCout "Button state: "; EvMutexLock;
                             EvGetValue 4099 1; EvMutexUnlock;
                             EvCout "Pressed"; EvCout endl] |} |}.
Proof.
  split; [reflexivity|].
  exact (@button_command_reports_level SimGpiod (demo "rq") "q"
           eq_refl eq_refl eq_refl).
Defined.

Lemma ready_session_never_reports_witness :
  ready (demo "1r0xq")
  /\ exists delta,
       trace (final (session (demo "1r0xq")))
       = trace (world (demo "1r0xq")) ++ delta
       /\ existsb is_report delta = false.
Proof.
  assert (Hr : ready (demo "1r0xq")) by (repeat split; reflexivity).
  split; [exact Hr|].
  destruct (@ready_session_never_reports SimGpiod (demo "1r0xq") Hr)
    as (delta & Ht & Hq & _).
  exists delta. split; [exact Ht|exact Hq].
Defined.

Lemma startup_failure_reads_no_command_witness :
  DigitalPin_ctor 17 Output "LED" (greeted (boot board_busy17))
  = (Thrown (runtime_error "Failed to configure GPIO pin: Device or resource busy"),
     snd (DigitalPin_ctor 17 Output "LED" (greeted (boot board_busy17))))
  /\ exit_code (main "1q" (boot board_busy17)) = Some 0
  /\ left_unread (main "1q" (boot board_busy17)) = "1q"%string
  /\ DigitalPin_ctor 17 Output "LED" (greeted (boot board_busy27))
     = (Returned led_pin,
        snd (DigitalPin_ctor 17 Output "LED" (greeted (boot board_busy27))))
  /\ DigitalPin_ctor 27 Input "Button"
       (snd (DigitalPin_ctor 17 Output "LED" (greeted (boot board_busy27))))
     = (Thrown (runtime_error "Failed to configure GPIO pin: Device or resource busy"),
        snd (DigitalPin_ctor 27 Input "Button"
               (snd (DigitalPin_ctor 17 Output "LED"
                       (greeted (boot board_busy27))))))
  /\ exit_code (main "1q" (boot board_busy27)) = Some 0
  /\ left_unread (main "1q" (boot board_busy27)) = "1q"%string.
Proof.
  assert (E1 : DigitalPin_ctor 17 Output "LED" (greeted (boot board_busy17))
               = (Thrown (runtime_error
                            "Failed to configure GPIO pin: Device or resource busy"),
                  snd (DigitalPin_ctor 17 Output "LED"
                         (greeted (boot board_busy17)))))
    by (vm_compute; reflexivity).
  assert (E2 : DigitalPin_ctor 17 Output "LED" (greeted (boot board_busy27))
               = (Returned led_pin,
                  snd (DigitalPin_ctor 17 Output "LED"
                         (greeted (boot board_busy27)))))
    by (vm_compute; reflexivity).
  assert (E3 : DigitalPin_ctor 27 Input "Button"
                 (snd (DigitalPin_ctor 17 Output "LED"
                         (greeted (boot board_busy27))))
               = (Thrown (runtime_error
                            "Failed to configure GPIO pin: Device or resource busy"),
                  snd (DigitalPin_ctor 27 Input "Button"
                         (snd (DigitalPin_ctor 17 Output "LED"
                                 (greeted (boot board_busy27)))))))
    by (vm_compute; reflexivity).
  destruct (@startup_failure_reads_no_command SimGpiod "1q" (boot board_busy17))
    as [H1 _].
  destruct (@startup_failure_reads_no_command SimGpiod "1q" (boot board_busy27))
    as [_ H2].
  specialize (H1 _ _ E1). specialize (H2 _ _ _ _ E2 E3).
  split; [exact E1|].
  split; [rewrite H1; reflexivity|].
  split; [rewrite H1; reflexivity|].
  split; [exact E2|]. split; [exact E3|].
  split; rewrite H2; reflexivity.
Defined.

Lemma interleaving_is_serial_witness :
  DigitalPin_ctor 17 Output "LED" (boot board) = (Returned led_pin, led_world)
  /\ let st := run [0; 1; 0; 1; 1; 0; 0; 1; 1; 1; 0; 0; 0; 0; 0]%nat
                 (spawn led_pin led_world
                    [[CallWrite true; CallRead]; [CallWrite false]]) in
     mutex_ (object st) = Unlocked
     /\ serial_order (history st) = [OpWrite true; OpWrite false; OpRead]
     /\ (object st, env st)
        = run_ops [OpWrite true; OpWrite false; OpRead] (led_pin, led_world).
Proof.
  split; [reflexivity|]. split; [reflexivity|]. split; [reflexivity|].
  exact (@interleaving_is_serial SimGpiod 17 Output "LED" (boot board)
           led_pin led_world
           [[CallWrite true; CallRead]; [CallWrite false]]
           [0; 1; 0; 1; 1; 0; 0; 1; 1; 1; 0; 0; 0; 0; 0]%nat eq_refl eq_refl).
Defined.

Lemma results_follow_direction_witness :
  DigitalPin_ctor 17 Output "LED" (boot board) = (Returned led_pin, led_world)
  /\ let st := run [0; 1; 0; 1; 1; 0; 0; 1; 1; 1; 0; 0; 0; 0; 0]%nat
                 (spawn led_pin led_world
                    [[CallWrite true; CallRead]; [CallWrite false]]) in
     forall thi,
       nth_error (threads st) 0 = Some thi ->
       forall c r, In (c, r) (results thi) -> fits Output c r.
Proof.
  split; [reflexivity|].
  intros st thi Hi.
  exact (proj1 (@results_follow_direction SimGpiod 17 Output "LED" (boot board)
                  led_pin led_world
                  [[CallWrite true; CallRead]; [CallWrite false]]
                  [0; 1; 0; 1; 1; 0; 0; 1; 1; 1; 0; 0; 0; 0; 0]%nat
                  eq_refl 0%nat thi Hi)).
Defined.

Lemma every_call_can_complete_witness :
  DigitalPin_ctor 17 Output "LED" (boot board) = (Returned led_pin, led_world)
  /\ exists more,
       let st := run ([0; 1; 0]%nat ++ more)
                   (spawn led_pin led_world
                      [[CallWrite true; CallRead]; [CallWrite false]]) in
       mutex_ (object st) = Unlocked
       /\ (object st, env st)
          = run_ops (serial_order (history st)) (led_pin, led_world)
       /\ calls_of 0 (history st) = [CallWrite true; CallRead].
Proof.
  split; [reflexivity|].
  destruct (@every_call_can_complete SimGpiod 17 Output "LED" (boot board)
              led_pin led_world
              [[CallWrite true; CallRead]; [CallWrite false]]
              [0; 1; 0]%nat eq_refl) as (more & Hm & _ & Hs & Hc).
  exists more. split; [exact Hm|]. split; [exact Hs|].
  exact (Hc 0%nat _ eq_refl).
Defined.

Lemma label_never_reaches_provider_witness :
  In (EvLineRequest 4097 (config_for Output) 0 0)
     (trace (snd (DigitalPin_ctor 17 Output "LED" (boot board))))
  /\ consumer (config_for Output) = "DigitalPin"%string.
Proof.
  split; [cbn; tauto|].
  destruct (@label_never_reaches_provider SimGpiod 17 Output "LED" "Lamp"
              (boot board)) as (_ & _ & delta & Ht & Hreq).
  assert (Hin : In (EvLineRequest 4097 (config_for Output) 0 0) delta).
  { change (trace (boot board) ++ delta) with delta in Ht.
    rewrite <- Ht. cbn. tauto. }
  exact (proj1 (Hreq _ _ _ _ Hin)).
Defined.
